(** * AVDNet: early stopping, best-trial selection and evaluation metrics

    A shallow embedding of the control logic of [optimization_old.py]
    (class [EarlyStopping], [save_best_model_callback] and the globals set up
    under [__main__]) and of the metric functions of [data_methods.py]
    ([calculate_metrics], [calculate_metrics_4], [calculate_eer]), with the
    properties the specification states about them.

    Numbers.  Losses and scores are Python/numpy floats in the source; they
    are modelled by exact rationals [Q], so every comparison, difference and
    quotient below is the exact one and rounding is not modelled.  Python
    ints ([patience], [counter], labels, counts) are [Z].  A numpy float that
    may be [nan] is a [npfloat].

    Library calls.  The metric functions are thin wrappers around
    scikit-learn and numpy; the calls they make ([accuracy_score],
    [recall_score], [f1_score], [precision_score], [roc_curve],
    [np.nanargmin]) are embedded from the libraries' implementation, with the
    defaults the source leaves in place. *)

From Stdlib Require Import String ZArith QArith Qabs List Bool Lia Lqa Sorted Permutation.
From Stdlib Require DecimalString DecimalZ.
Import ListNotations.
Open Scope Z_scope.

(** ** Exceptions and results *)

(** The exceptions the modelled code can raise. *)
Inductive exn : Type :=
| ValueError
| KeyError.

(** Outcome of a call that either returns a value or raises. *)
Inductive result (A : Type) : Type :=
| Return (a : A)
| Raise (e : exn).
Arguments Return {A} a.
Arguments Raise {A} e.

Definition bind {A B : Type} (r : result A) (k : A -> result B) : result B :=
  match r with
  | Return a => k a
  | Raise e => Raise e
  end.

Notation "x <- r ;; k" := (bind r (fun x => k))
  (at level 61, r at next level, right associativity).

(** ** Comparisons on rationals *)

(** Python's [x > y] on numbers. *)
Definition Qgt_bool (x y : Q) : bool := negb (Qle_bool x y).

(** Python's [x < y] on numbers. *)
Definition Qlt_bool (x y : Q) : bool := negb (Qle_bool y x).

(** ** optimization_old.py: class EarlyStopping *)

(** The attributes of an [EarlyStopping] object.  [best_loss = None] is
    Python's [self.best_loss is None]. *)
Record EarlyStopping : Type := mkEarlyStopping {
  patience : Z;
  delta : Q;
  best_loss : option Q;
  counter : Z;
  early_stop : bool
}.

(** [EarlyStopping.__init__(self, patience=5, delta=0)]. *)
Definition EarlyStopping_init (patience : Z) (delta : Q) : EarlyStopping :=
  {| patience := patience;
     delta := delta;
     best_loss := None;
     counter := 0;
     early_stop := false |}.

Definition default_patience : Z := 5.


Definition set_best_loss (s : EarlyStopping) (v : Q) : EarlyStopping :=
  {| patience := patience s; delta := delta s; best_loss := Some v;
     counter := counter s; early_stop := early_stop s |}.

Definition set_counter (s : EarlyStopping) (c : Z) : EarlyStopping :=
  {| patience := patience s; delta := delta s; best_loss := best_loss s;
     counter := c; early_stop := early_stop s |}.

Definition set_early_stop (s : EarlyStopping) (b : bool) : EarlyStopping :=
  {| patience := patience s; delta := delta s; best_loss := best_loss s;
     counter := counter s; early_stop := b |}.

(** [EarlyStopping.__call__(self, val_loss)]: the object after the call. *)
Definition EarlyStopping_call (s : EarlyStopping) (val_loss : Q) : EarlyStopping :=
  match best_loss s with
  | None => set_best_loss s val_loss
  | Some best =>
      if Qgt_bool val_loss (best - delta s)%Q then
        let s1 := set_counter s (counter s + 1) in
        if counter s1 >=? patience s1 then set_early_stop s1 true else s1
      else
        set_counter (set_best_loss s val_loss) 0
  end.

(** A monitor called once per epoch with the successive validation losses. *)
Definition EarlyStopping_calls (s : EarlyStopping) (losses : list Q) : EarlyStopping :=
  fold_left EarlyStopping_call losses s.

(** The two states of the monitor, read off the [early_stop] flag. *)
Inductive monitor_state : Type := TRACKING | STOPPED.

Definition state_of (s : EarlyStopping) : monitor_state :=
  if early_stop s then STOPPED else TRACKING.

(** The epoch loop of [objective], reduced to what the monitor sees: the
    monitor is called with each epoch's validation loss and the loop breaks
    as soon as [early_stop] is set.  Returns the monitor and the number of
    epochs run. *)
Fixpoint objective_epochs (s : EarlyStopping) (val_losses : list Q) (epochs : nat)
  : EarlyStopping * nat :=
  match val_losses with
  | [] => (s, epochs)
  | v :: rest =>
      let s' := EarlyStopping_call s v in
      if early_stop s' then (s', S epochs) else objective_epochs s' rest (S epochs)
  end.

(** ** optimization_old.py: save_best_model_callback and its globals *)

(** What the callback reads of a finished trial: [trial.number] and the two
    entries of [trial.user_attrs] it looks up; [None] is an absent key. *)
Record Trial : Type := mkTrial {
  number : Z;
  attr_best_val_loss : option Q;
  attr_best_model_path : option string
}.

(** The module globals [best_model_path] and [best_validation_loss], and the
    entry ["best_model_path"] of [study.user_attrs]. *)
Record Selection : Type := mkSelection {
  best_model_path : option string;
  best_validation_loss : Q;
  study_best_model_path : option string
}.

(** The globals as [__main__] sets them before [study.optimize]. *)
Definition main_globals : Selection :=
  {| best_model_path := None;
     best_validation_loss := 1000000%Q;
     study_best_model_path := None |}.

(** [d[key]] on a dict entry that may be absent. *)
Definition getitem {A : Type} (entry : option A) : result A :=
  match entry with
  | Some a => Return a
  | None => Raise KeyError
  end.

(** [save_best_model_callback(study, trial)]: the globals after the call. *)
Definition save_best_model_callback (g : Selection) (trial : Trial) : result Selection :=
  this_trial_loss <- getitem (attr_best_val_loss trial) ;;
  this_trial_model_path <- getitem (attr_best_model_path trial) ;;
  if Qlt_bool this_trial_loss (best_validation_loss g) then
    Return {| best_model_path := Some this_trial_model_path;
              best_validation_loss := this_trial_loss;
              study_best_model_path := Some this_trial_model_path |}
  else
    Return g.

(** [study.optimize(..., callbacks=[save_best_model_callback])]: the callback
    runs after every trial, in order; an exception ends the run. *)
Fixpoint optimize_callbacks (g : Selection) (trials : list Trial) : result Selection :=
  match trials with
  | [] => Return g
  | t :: rest =>
      g' <- save_best_model_callback g t ;;
      optimize_callbacks g' rest
  end.

(** A trial that finished with both user attributes set, as [objective] leaves
    it once some epoch improved on the initial loss. *)
Definition finished_trial (n : Z) (loss : Q) (path : string) : Trial :=
  {| number := n; attr_best_val_loss := Some loss; attr_best_model_path := Some path |}.

(** ** numpy values and array helpers *)

(** A numpy float as the metric code sees it: a finite number or [nan]. *)
Inductive npfloat : Type :=
| Fin (q : Q)
| NaN.

Definition np_lift2 (f : Q -> Q -> Q) (x y : npfloat) : npfloat :=
  match x, y with
  | Fin a, Fin b => Fin (f a b)
  | _, _ => NaN
  end.

Definition np_lift1 (f : Q -> Q) (x : npfloat) : npfloat :=
  match x with
  | Fin a => Fin (f a)
  | NaN => NaN
  end.

Definition np_add : npfloat -> npfloat -> npfloat := np_lift2 Qplus.
Definition np_sub : npfloat -> npfloat -> npfloat := np_lift2 Qminus.
Definition np_abs : npfloat -> npfloat := np_lift1 Qabs.
Definition np_half : npfloat -> npfloat := np_lift1 (fun a => a / 2)%Q.

(** Element-wise binary operation on two arrays of the same length. *)
Definition map2 {A B C : Type} (f : A -> B -> C) (xs : list A) (ys : list B) : list C :=
  map (fun p => f (fst p) (snd p)) (combine xs ys).

(** [(y_pred > c).astype(int)]. *)
Definition np_greater_int (y_pred : list Q) (c : Q) : list Z :=
  map (fun x : Q => if Qgt_bool x c then 1 else 0) y_pred.

(** Number of entries of a boolean array that are true. *)
Definition count_true (mask : list bool) : Z :=
  fold_right (fun (b : bool) (acc : Z) => if b then acc + 1 else acc) 0 mask.

(** [np.average] of a boolean array: [nan] on an empty array. *)
Definition np_average (mask : list bool) : npfloat :=
  match mask with
  | [] => NaN
  | _ => Fin (inject_Z (count_true mask) / inject_Z (Z.of_nat (length mask)))
  end.

(** [np.diff] on integers and on rationals: [a[i+1] - a[i]]. *)
Fixpoint np_diff_Z (a : list Z) : list Z :=
  match a with
  | x :: (y :: _) as rest => (y - x) :: np_diff_Z rest
  | _ => []
  end.

Fixpoint np_diff_Q (a : list Q) : list Q :=
  match a with
  | x :: (y :: _) as rest => (y - x)%Q :: np_diff_Q rest
  | _ => []
  end.

(** [np.where(mask)[0]]: the indices of the true entries, counted from [i]. *)
Fixpoint np_where_from (i : nat) (mask : list bool) : list nat :=
  match mask with
  | [] => []
  | b :: rest => if b then i :: np_where_from (S i) rest else np_where_from (S i) rest
  end.

Definition np_where (mask : list bool) : list nat := np_where_from 0 mask.

(** [a[idxs]]: indexing an array by an array of valid indices. *)
Definition take_idx {A : Type} (default : A) (a : list A) (idxs : list nat) : list A :=
  map (fun i => nth i a default) idxs.

(** [np.cumsum], started from the running total [acc]. *)
Fixpoint cumsum_from (acc : Z) (a : list Z) : list Z :=
  match a with
  | [] => []
  | x :: rest => (acc + x) :: cumsum_from (acc + x) rest
  end.

Definition np_cumsum (a : list Z) : list Z := cumsum_from 0 a.

(** [np.unique] on integers: the sorted distinct values. *)
Fixpoint insert_unique (x : Z) (l : list Z) : list Z :=
  match l with
  | [] => [x]
  | y :: rest =>
      if x <? y then x :: l
      else if x =? y then l
      else y :: insert_unique x rest
  end.

Definition np_unique (a : list Z) : list Z := fold_right insert_unique [] a.

(** [np.array_equal] on integer arrays. *)
Fixpoint array_equal (a b : list Z) : bool :=
  match a, b with
  | [], [] => true
  | x :: a', y :: b' => (x =? y) && array_equal a' b'
  | _, _ => false
  end.

(** [a[-1]] on a non-empty integer array. *)
Definition last_Z (a : list Z) : Z := last a 0.

(** [np.nanargmin]: the first index of the least non-nan entry.  The scan
    keeps the best index and value seen so far; [ValueError] when every entry
    is [nan] (or there is none). *)
Fixpoint nanargmin_from (i : nat) (a : list npfloat) (best : option (nat * Q))
  : option (nat * Q) :=
  match a with
  | [] => best
  | NaN :: rest => nanargmin_from (S i) rest best
  | Fin q :: rest =>
      match best with
      | None => nanargmin_from (S i) rest (Some (i, q))
      | Some (_, m) =>
          if Qlt_bool q m then nanargmin_from (S i) rest (Some (i, q))
          else nanargmin_from (S i) rest best
      end
  end.

Definition nanargmin (a : list npfloat) : result nat :=
  match nanargmin_from 0 a None with
  | Some (i, _) => Return i
  | None => Raise ValueError
  end.

(** ** sklearn.metrics as called by data_methods.py

    The functions below follow scikit-learn's implementation of the calls the
    source makes, with the arguments the source leaves at their defaults
    ([pos_label=None], [average='binary'], [zero_division='warn'],
    [sample_weight=None], [drop_intermediate=True]).  Warnings are not
    modelled ([constants.py] silences them). *)

(** [check_consistent_length]. *)
Definition check_consistent_length {A B : Type} (a : list A) (b : list B) : result unit :=
  if Nat.eqb (length a) (length b) then Return tt else Raise ValueError.

(** [accuracy_score(y_true, y_pred)]: the mean of [y_true == y_pred]. *)
Definition accuracy_score (y_true y_pred : list Z) : result npfloat :=
  _ <- check_consistent_length y_true y_pred ;;
  Return (np_average (map2 Z.eqb y_true y_pred)).

(** The target checks of the binary-average scores: more than two labels
    present is a multiclass target, refused with [average='binary']; so is a
    two-label target that lacks the positive label 1. *)
Definition check_binary_average (y_true y_pred : list Z) : result unit :=
  _ <- check_consistent_length y_true y_pred ;;
  let present_labels := np_unique (y_true ++ y_pred) in
  if (2 <? Z.of_nat (length present_labels)) then Raise ValueError
  else if negb (existsb (Z.eqb 1) present_labels)
          && (2 <=? Z.of_nat (length present_labels)) then Raise ValueError
  else Return tt.

(** Counts for the positive label 1: true positives, predicted positives and
    actual positives. *)
Definition tp_sum (y_true y_pred : list Z) : Z :=
  count_true (map2 (fun t p => (t =? 1) && (p =? 1)) y_true y_pred).
Definition pred_sum (y_pred : list Z) : Z := count_true (map (Z.eqb 1) y_pred).
Definition true_sum (y_true : list Z) : Z := count_true (map (Z.eqb 1) y_true).

(** A quotient of counts with [zero_division='warn']: 0.0 on a zero denominator. *)
Definition prf_divide (num den : Z) : npfloat :=
  if den =? 0 then Fin 0 else Fin (inject_Z num / inject_Z den).

(** [recall_score(y_true, y_pred)]. *)
Definition recall_score (y_true y_pred : list Z) : result npfloat :=
  _ <- check_binary_average y_true y_pred ;;
  Return (prf_divide (tp_sum y_true y_pred) (true_sum y_true)).

(** [precision_score(y_true, y_pred)]. *)
Definition precision_score (y_true y_pred : list Z) : result npfloat :=
  _ <- check_binary_average y_true y_pred ;;
  Return (prf_divide (tp_sum y_true y_pred) (pred_sum y_pred)).

(** [f1_score(y_true, y_pred)]: [2 tp / (2 tp + fp + fn)]. *)
Definition f1_score (y_true y_pred : list Z) : result npfloat :=
  _ <- check_binary_average y_true y_pred ;;
  let tp := tp_sum y_true y_pred in
  Return (prf_divide (2 * tp) (pred_sum y_pred + true_sum y_true)).

(** [_check_pos_label_consistency(None, y_true)]: with no [pos_label] given the
    classes of [y_true] must be one of [{0,1}], [{-1,1}], [{0}], [{-1}], [{1}];
    the positive label is then 1.  (A target with more than two classes is
    refused just before, by the target-type check, with the same exception.) *)
Definition check_pos_label_consistency (y_true : list Z) : result Z :=
  let classes := np_unique y_true in
  if array_equal classes [0; 1]
     || array_equal classes [-1; 1]
     || array_equal classes [0]
     || array_equal classes [-1]
     || array_equal classes [1]
  then Return 1
  else Raise ValueError.

(** [np.argsort(y_score, kind="mergesort")]: a stable ascending sort, here
    carried out on the (score, label) pairs by stable insertion. *)
Fixpoint insert_by_score (x : Q * bool) (l : list (Q * bool)) : list (Q * bool) :=
  match l with
  | [] => [x]
  | y :: rest =>
      if Qle_bool (fst x) (fst y) then x :: l else y :: insert_by_score x rest
  end.

Fixpoint stable_sort_by_score (l : list (Q * bool)) : list (Q * bool) :=
  match l with
  | [] => []
  | x :: rest => insert_by_score x (stable_sort_by_score rest)
  end.

(** The entries of an integer array that are not zero. *)
Definition nonzero_Z (a : list Z) : list bool := map (fun d => negb (d =? 0)) a.
Definition nonzero_Q (a : list Q) : list bool := map (fun d => negb (Qeq_bool d 0)) a.

(** [_binary_clf_curve(y_true, y_score)]: false-positive and true-positive
    counts at each distinct score, by decreasing score, with those scores. *)
Definition binary_clf_curve (y_true : list Z) (y_score : list Q)
  : result (list Z * list Z * list Q) :=
  _ <- check_consistent_length y_true y_score ;;
  pos_label <- check_pos_label_consistency y_true ;;
  let y_true := map (fun y => y =? pos_label) y_true in
  let desc := rev (stable_sort_by_score (combine y_score y_true)) in
  let y_score := map fst desc in
  let y_true := map snd desc in
  let distinct_value_indices := np_where (nonzero_Q (np_diff_Q y_score)) in
  let threshold_idxs := distinct_value_indices ++ [(length y_true - 1)%nat] in
  let tps := take_idx 0 (np_cumsum (map Z.b2z y_true)) threshold_idxs in
  let fps := map2 (fun i tp => 1 + Z.of_nat i - tp) threshold_idxs tps in
  Return (fps, tps, take_idx 0%Q y_score threshold_idxs).

(** The indices [drop_intermediate] keeps: the two ends and every point where
    the second difference of [fps] or of [tps] is not zero. *)
Definition optimal_idxs (fps tps : list Z) : list nat :=
  np_where
    (true :: map2 orb (nonzero_Z (np_diff_Z (np_diff_Z fps)))
                      (nonzero_Z (np_diff_Z (np_diff_Z tps)))
          ++ [true]).

(** A count array divided by its last entry; all [nan] when that entry is
    not positive. *)
Definition rate_of (counts : list Z) : list npfloat :=
  if last_Z counts <=? 0 then repeat NaN (length counts)
  else map (fun c => Fin (inject_Z c / inject_Z (last_Z counts))) counts.

(** [roc_curve(y_true, y_score)]: [(fpr, tpr, thresholds)].  The first
    threshold is [np.inf], here [None]. *)
Definition roc_curve (y_true : list Z) (y_score : list Q)
  : result (list npfloat * list npfloat * list (option Q)) :=
  curve <- binary_clf_curve y_true y_score ;;
  let '(fps, tps, thresholds) := curve in
  let '(fps, tps, thresholds) :=
    if (2 <? length fps)%nat then
      let idxs := optimal_idxs fps tps in
      (take_idx 0 fps idxs, take_idx 0 tps idxs, take_idx 0%Q thresholds idxs)
    else (fps, tps, thresholds) in
  let tps := 0 :: tps in
  let fps := 0 :: fps in
  let thresholds := None :: map Some thresholds in
  Return (rate_of fps, rate_of tps, thresholds).

(** ** data_methods.py: the metric functions *)

(** [calculate_metrics(y_true, y_pred)]: [(acc, recall, f1)]. *)
Definition calculate_metrics (y_true : list Z) (y_pred : list Q)
  : result (npfloat * npfloat * npfloat) :=
  let y_pred_labels := np_greater_int y_pred (1 # 2) in
  acc <- accuracy_score y_true y_pred_labels ;;
  recall <- recall_score y_true y_pred_labels ;;
  f1 <- f1_score y_true y_pred_labels ;;
  Return (acc, recall, f1).

(** The dict [calculate_metrics_4] returns. *)
Record Metrics4 : Type := mkMetrics4 {
  m_accuracy : npfloat;
  m_recall : npfloat;
  m_f1_score : npfloat;
  m_precision : npfloat
}.

(** [calculate_metrics_4(y_true, y_pred)]. *)
Definition calculate_metrics_4 (y_true : list Z) (y_pred : list Q) : result Metrics4 :=
  let y_pred_labels := np_greater_int y_pred (1 # 2) in
  acc <- accuracy_score y_true y_pred_labels ;;
  recall <- recall_score y_true y_pred_labels ;;
  f1 <- f1_score y_true y_pred_labels ;;
  precision <- precision_score y_true y_pred_labels ;;
  Return {| m_accuracy := acc; m_recall := recall; m_f1_score := f1;
            m_precision := precision |}.

(** [calculate_eer(y_true, y_pred)]. *)
Definition calculate_eer (y_true : list Z) (y_pred : list Q) : result npfloat :=
  curve <- roc_curve y_true y_pred ;;
  let '(fpr, tpr, thresholds) := curve in
  let fnr := map (np_sub (Fin 1)) tpr in
  eer_threshold_index <- nanargmin (map np_abs (map2 np_sub fnr fpr)) ;;
  Return (np_half (np_add (nth eer_threshold_index fpr NaN)
                          (nth eer_threshold_index fnr NaN))).

(** ** Vocabulary of the properties *)

(** What every monitor built by [EarlyStopping_init p d] satisfies, whatever
    it was called with: its parameters are those it was built with, and while
    no loss is recorded the counter is 0 and the flag is down. *)
Definition built_with (p : Z) (d : Q) (s : EarlyStopping) : Prop :=
  patience s = p /\ delta s = d /\
  (best_loss s = None -> counter s = 0 /\ early_stop s = false).

(** The flag is down only while the counter is below the patience. *)
Definition counter_below_patience (s : EarlyStopping) : Prop :=
  early_stop s = false -> counter s < patience s.

(** A finished trial given by its number, its best validation loss and the
    path of its checkpoint. *)
Definition trial_of (t : Z * Q * string) : Trial :=
  let '(n, loss, path) := t in finished_trial n loss path.

Definition loss_of (t : Z * Q * string) : Q := snd (fst t).
Definition path_of (t : Z * Q * string) : string := snd t.

(** The globals after a trial replaced the best record. *)
Definition replaced_by (t : Z * Q * string) : Selection :=
  {| best_model_path := Some (path_of t);
     best_validation_loss := loss_of t;
     study_best_model_path := Some (path_of t) |}.


(** Labels as the Metrics Engine expects them: each is 0 or 1. *)
Definition binary_labels (labels : list Z) : Prop :=
  Forall (fun y => y = 0 \/ y = 1) labels.

(** The binarization rule in the spec's words: a score is classified
    positive iff it is strictly above 0.5. *)
Definition classified_positive (score : Q) : bool :=
  if Qlt_le_dec (1 # 2) score then true else false.

(** Number of samples with a given label and a given classification. *)
Definition confusion_count (label : Z) (positive : bool)
  (labels : list Z) (scores : list Q) : Z :=
  count_true (map2 (fun y s => (y =? label) && Bool.eqb (classified_positive s) positive)
                   labels scores).

Definition TP : list Z -> list Q -> Z := confusion_count 1 true.
Definition TN : list Z -> list Q -> Z := confusion_count 0 false.
Definition FP : list Z -> list Q -> Z := confusion_count 0 true.
Definition FN : list Z -> list Q -> Z := confusion_count 1 false.

(** The (score, is-positive) pairs by decreasing score, as
    [_binary_clf_curve] orders them for labels in {0,1}. *)
Definition ranked (y_true : list Z) (y_score : list Q) : list (Q * bool) :=
  rev (stable_sort_by_score (combine y_score (map (fun y => y =? 1) y_true))).

(** Running counts over the ranked pairs: true positives, false positives and
    the score at position [i]. *)
Definition tps_at (r : list (Q * bool)) (i : nat) : Z :=
  nth i (np_cumsum (map Z.b2z (map snd r))) 0.

Definition fps_at (r : list (Q * bool)) (i : nat) : Z :=
  1 + Z.of_nat i - tps_at r i.

Definition score_at (r : list (Q * bool)) (i : nat) : Q :=
  nth i (map fst r) 0%Q.

(** The positions [_binary_clf_curve] samples: the last position of every run
    of equal scores. *)
Definition threshold_idxs (r : list (Q * bool)) : list nat :=
  np_where (nonzero_Q (np_diff_Q (map fst r))) ++ [(length (map snd r) - 1)%nat].

(** Number of positive and of negative samples among ranked pairs. *)
Definition n_pos (r : list (Q * bool)) : Z := count_true (map snd r).
Definition n_neg (r : list (Q * bool)) : Z := Z.of_nat (length r) - n_pos r.

(** An increasing, non-empty selection of positions of an array of length
    [n] that ends at the last position. *)
Definition sampled (n : nat) (idxs : list nat) : Prop :=
  idxs <> [] /\ StronglySorted lt idxs /\ last idxs 0%nat = (n - 1)%nat.

(** Ranked pairs are by decreasing score. *)
Definition descending (r : list (Q * bool)) : Prop :=
  forall j k, (j <= k < length r)%nat -> (score_at r k <= score_at r j)%Q.

(** Ascending order of the scores of (score, label) pairs. *)
Definition le_score (a b : Q * bool) : Prop := (fst a <= fst b)%Q.

(** Number of samples of one class (label 1 when [positive], any other label
    otherwise) whose score is at least [t], and number of samples of that
    class. *)
Definition count_at_or_above (positive : bool) (labels : list Z) (scores : list Q)
  (t : Q) : Z :=
  count_true (map2 (fun y s => Bool.eqb (y =? 1) positive && Qle_bool t s) labels scores).

Definition count_class (positive : bool) (labels : list Z) : Z :=
  count_true (map (fun y => Bool.eqb (y =? 1) positive) labels).

(** False-positive and true-positive rate of the decision rule "positive iff
    score >= t"; the threshold [None] is +infinity, where nothing is
    classified positive. *)
Definition fpr_at (labels : list Z) (scores : list Q) (t : option Q) : Q :=
  match t with
  | None => 0
  | Some t => inject_Z (count_at_or_above false labels scores t)
              / inject_Z (count_class false labels)
  end.

Definition tpr_at (labels : list Z) (scores : list Q) (t : option Q) : Q :=
  match t with
  | None => 0
  | Some t => inject_Z (count_at_or_above true labels scores t)
              / inject_Z (count_class true labels)
  end.

(** A point of a ROC curve: a threshold with the rates reported for it. *)
Record roc_point : Type := mkPoint {
  pt_threshold : option Q;
  pt_fpr : Q;
  pt_tpr : Q
}.

Definition no_point : roc_point := mkPoint None 0 0.

(** |FNR - FPR| and the mean of FPR and FNR at a point, with FNR = 1 - TPR. *)
Definition pt_gap (p : roc_point) : Q := Qabs ((1 - pt_tpr p) - pt_fpr p).
Definition pt_mean (p : roc_point) : Q := (pt_fpr p + (1 - pt_tpr p)) / 2.

(** The rates of a point are those of its threshold. *)
Definition operating_point (labels : list Z) (scores : list Q) (p : roc_point) : Prop :=
  (pt_fpr p == fpr_at labels scores (pt_threshold p))%Q /\
  (pt_tpr p == tpr_at labels scores (pt_threshold p))%Q.

(** Order of thresholds, +infinity ([None]) above every score. *)
Definition threshold_below (a b : option Q) : Prop :=
  match a, b with
  | Some x, Some y => (x < y)%Q
  | Some _, None => True
  | None, _ => False
  end.

(** The points [roc_curve] reports for sampled positions [idxs] of the
    ranked pairs [r]. *)
Definition points_of (r : list (Q * bool)) (idxs : list nat) : list roc_point :=
  mkPoint None (inject_Z 0 / inject_Z (n_neg r)) (inject_Z 0 / inject_Z (n_pos r))
  :: map (fun i => mkPoint (Some (score_at r i))
                           (inject_Z (fps_at r i) / inject_Z (n_neg r))
                           (inject_Z (tps_at r i) / inject_Z (n_pos r))) idxs.

(** The three arrays of a list of points, as [roc_curve] returns them. *)
Definition arrays_of (pts : list roc_point)
  : list npfloat * list npfloat * list (option Q) :=
  (map (fun p => Fin (pt_fpr p)) pts,
   map (fun p => Fin (pt_tpr p)) pts,
   map pt_threshold pts).






(** A strictly increasing function on the rationals. *)
Definition strictly_increasing (f : Q -> Q) : Prop :=
  (forall a b, (a == b)%Q -> (f a == f b)%Q) /\
  (forall a b, (a < b)%Q -> (f a < f b)%Q).

(** The part of a curve that [calculate_eer] uses: everything but the
    thresholds. *)
Definition without_thresholds {A B : Type} (c : result (A * B)) : result A :=
  x <- c ;; Return (fst x).

(** A function applied to the score of a (score, label) pair. *)
Definition on_score (f : Q -> Q) (p : Q * bool) : Q * bool := (f (fst p), snd p).

(** * Further code of the repository *)

(** ** More vocabulary for the early-stopping monitor *)

(** Every loss of the list is below the one before it, the first below [b]. *)
Fixpoint decreasing_below (b : Q) (losses : list Q) : Prop :=
  match losses with
  | [] => True
  | v :: rest => (v < b)%Q /\ decreasing_below v rest
  end.

Definition strictly_decreasing (losses : list Q) : Prop :=
  match losses with
  | [] => True
  | v :: rest => decreasing_below v rest
  end.

(** ** optimization_old.py: the epoch loop of objective *)


(** [f"{n}"] for a Python int. *)
Definition str_of_int (n : Z) : string :=
  DecimalString.NilEmpty.string_of_int (Z.to_int n).

(** [f"checkpoints/tmp_model_trial_{trial.number}.pth"]. *)
Definition tmp_model_path (number : Z) : string :=
  ("checkpoints/tmp_model_trial_" ++ str_of_int number ++ ".pth")%string.









(** ** optimization_old.py: after the search *)

(** [study.user_attrs["best_model_path"]], the path [__main__] loads the best
    model from once [study.optimize] is over. *)
Definition main_best_model_path (g : Selection) : result string :=
  getitem (study_best_model_path g).

(** A trial that lacks one of the two user attributes the callback reads. *)
Definition incomplete_trial (t : Trial) : Prop :=
  attr_best_val_loss t = None \/ attr_best_model_path t = None.

(** The tail of [evaluate_on_test]: the gathered predictions are binarized
    at 0.5 and handed, as integers, to [calculate_metrics] (which binarizes
    again). *)
Definition evaluate_on_test_metrics (all_y_true : list Z) (all_y_pred : list Q)
  : result (npfloat * npfloat * npfloat) :=
  let binary_y_pred := np_greater_int all_y_pred (1 # 2) in
  calculate_metrics all_y_true (map inject_Z binary_y_pred).

(** ** data_methods.py: waveforms *)

(** A waveform tensor of shape (channels, time): its rows and
    [waveform.shape[1]]. *)
Record Waveform : Type := mkWaveform {
  rows : list (list Q);
  shape1 : nat
}.

(** Every row has [shape[1]] samples. *)
Definition well_shaped (w : Waveform) : Prop :=
  Forall (fun row => length row = shape1 w) (rows w).

(** A bound of a Python slice over a sequence of length [n]: a negative
    bound counts from the end, and bounds are clipped to [0, n]. *)
Definition slice_bound (n : nat) (i : Z) : nat :=
  if i <? 0 then Z.to_nat (Z.max (i + Z.of_nat n) 0)
  else Z.to_nat (Z.min i (Z.of_nat n)).

(** [row[start:stop] = 0]. *)
Definition zero_slice (row : list Q) (start stop : Z) : list Q :=
  let a := slice_bound (length row) start in
  let b := slice_bound (length row) stop in
  firstn a row ++ repeat 0%Q (b - a) ++ skipn (Nat.max a b) row.

(** [time_mask_waveform(waveform, sample_rate, mask_duration_ms)], where
    [mask_duration] is the integer the source computes in floating point as
    [int((mask_duration_ms / 1000.0) * sample_rate)] and [start_idx] is the
    value drawn by [torch.randint(0, num_samples - mask_duration, (1,))]. *)
Definition time_mask_waveform (waveform : Waveform) (mask_duration start_idx : Z)
  : Waveform :=
  let num_samples := shape1 waveform in
  if mask_duration >=? Z.of_nat num_samples then waveform
  else
    {| rows := map (fun row => zero_slice row start_idx (start_idx + mask_duration))
                   (rows waveform);
       shape1 := shape1 waveform |}.

(** The end of [__getitem__] of both dataset classes: the waveform is padded
    with zeros on the right, or truncated, to [self.expected_length]. *)
Definition fix_length (expected_length : nat) (waveform : Waveform) : Waveform :=
  if (shape1 waveform <? expected_length)%nat then
    let pad_size := (expected_length - shape1 waveform)%nat in
    {| rows := map (fun row => row ++ repeat 0%Q pad_size) (rows waveform);
       shape1 := (shape1 waveform + pad_size)%nat |}
  else if (expected_length <? shape1 waveform)%nat then
    {| rows := map (firstn expected_length) (rows waveform);
       shape1 := expected_length |}
  else waveform.

(** [self.sample_rate = 16000] and [self.expected_length = self.sample_rate * 4]. *)
Definition dataset_sample_rate : Z := 16000.
Definition dataset_expected_length : nat := Z.to_nat (dataset_sample_rate * 4).

(** The choice of the masked band in [frequency_mask_waveform]:
    [max_start_freq], the start drawn by [random.randint(0, max_start_freq)]
    (which raises [ValueError] on an empty range) and the end.  [draw] is the
    value drawn. *)
Definition frequency_mask_band (sample_rate mask_size draw : Z) : result (Z * Z) :=
  let max_start_freq := sample_rate / 2 - mask_size in
  if max_start_freq <? 0 then Raise ValueError
  else
    let start_freq := draw in
    let end_freq := start_freq + mask_size in
    Return (start_freq, end_freq).

(** ** additional/test.py: the loop over saved trials *)

(** [for i in range(20)]: the trial is evaluated when its checkpoint file
    exists, and the loop breaks at the first missing one.  [exists_at i] is
    [os.path.exists] of the path of trial [i]; the result lists the trials
    evaluated, in order. *)
Fixpoint evaluated_among (exists_at : nat -> bool) (trials : list nat) : list nat :=
  match trials with
  | [] => []
  | i :: rest =>
      if exists_at i then i :: evaluated_among exists_at rest else []
  end.

Definition evaluated_trials (exists_at : nat -> bool) : list nat :=
  evaluated_among exists_at (seq 0 20).

(** ** Vocabulary: separated scores *)

(** Every sample of label 1 has a strictly higher score than every sample of
    label 0. *)
Definition separated (labels : list Z) (scores : list Q) : Prop :=
  forall i j, (i < length labels)%nat -> (j < length labels)%nat ->
    nth i labels 0 = 1 -> nth j labels 0 = 0 ->
    (nth j scores 0 < nth i scores 0)%Q.

(** The same on ranked pairs. *)
Definition separated_pairs (r : list (Q * bool)) : Prop :=
  forall x y, In x r -> In y r -> snd x = true -> snd y = false ->
    (fst y < fst x)%Q.

(** The threshold positions [roc_curve] keeps: all of them, or the optimal
    ones when there are more than two. *)
Definition kept_idxs (r : list (Q * bool)) : list nat :=
  let all_idxs := threshold_idxs r in
  if (2 <? length all_idxs)%nat then
    take_idx 0%nat all_idxs
      (optimal_idxs (map (fps_at r) all_idxs) (map (tps_at r) all_idxs))
  else all_idxs.
(** * Properties *)

(** ** Rational comparisons *)

Lemma Qgt_bool_true (x y : Q) : Qgt_bool x y = true <-> (y < x)%Q.
Proof.
  unfold Qgt_bool. rewrite negb_true_iff. split; intro H.
  - apply Qnot_le_lt. intro Hle. apply Qle_bool_iff in Hle. congruence.
  - apply not_true_is_false. intro Hb. apply Qle_bool_iff in Hb.
    exact (Qlt_not_le _ _ H Hb).
Qed.

Lemma Qgt_bool_false (x y : Q) : Qgt_bool x y = false <-> (x <= y)%Q.
Proof.
  unfold Qgt_bool. rewrite negb_false_iff. apply Qle_bool_iff.
Qed.

Lemma Qlt_bool_true (x y : Q) : Qlt_bool x y = true <-> (x < y)%Q.
Proof. exact (Qgt_bool_true y x). Qed.

Lemma Qlt_bool_false (x y : Q) : Qlt_bool x y = false <-> (y <= x)%Q.
Proof. exact (Qgt_bool_false y x). Qed.

(** ** The early-stopping monitor *)

Lemma built_with_init (p : Z) (d : Q) : built_with p d (EarlyStopping_init p d).
Proof. repeat split. Qed.

Lemma built_with_call (p : Z) (d : Q) (s : EarlyStopping) (v : Q) :
  built_with p d s -> built_with p d (EarlyStopping_call s v).
Proof.
  intros (Hp & Hd & Hn). unfold built_with, EarlyStopping_call.
  destruct (best_loss s) as [b|] eqn:Hb.
  - destruct (Qgt_bool v (b - delta s)); simpl.
    + destruct (counter s + 1 >=? patience s); simpl; rewrite Hb;
        (split; [exact Hp | split; [exact Hd | discriminate]]).
    + split; [exact Hp | split; [exact Hd | discriminate]].
  - simpl. split; [exact Hp | split; [exact Hd | discriminate]].
Qed.

Lemma built_with_calls (p : Z) (d : Q) (losses : list Q) :
  forall s, built_with p d s -> built_with p d (EarlyStopping_calls s losses).
Proof.
  induction losses as [|v rest IH]; intros s Hs; simpl.
  - exact Hs.
  - apply IH. apply built_with_call. exact Hs.
Qed.






(** With a zero margin a loss equal to the best one is not above it. *)
Lemma equal_loss_not_above (best d v : Q) :
  (d == 0)%Q -> (v == best)%Q -> Qgt_bool v (best - d)%Q = false.
Proof.
  intros Hd Hv. apply Qgt_bool_false. rewrite Hd, Hv.
  setoid_replace (best - 0)%Q with best by ring. apply Qle_refl.
Qed.

Lemma constant_losses_keep_tracking (n : nat) :
  forall c : Z,
    EarlyStopping_calls (mkEarlyStopping 2 0 (Some 1%Q) c false) (repeat 1%Q n)
    = mkEarlyStopping 2 0 (Some 1%Q) (match n with O => c | S _ => 0 end) false.
Proof.
  induction n as [|n IH]; intro c.
  - reflexivity.
  - change (EarlyStopping_calls (mkEarlyStopping 2 0 (Some 1%Q) c false) (repeat 1%Q (S n)))
      with (EarlyStopping_calls (mkEarlyStopping 2 0 (Some 1%Q) 0 false) (repeat 1%Q n)).
    rewrite IH. destruct n; reflexivity.
Qed.

(** C5. With a zero margin, a call whose loss equals the recorded best loss
    takes the improvement branch: the loss is recorded, the counter is reset
    to 0 and a TRACKING monitor stays TRACKING.  In particular a monitor with
    patience 2 and margin 0 fed the loss 1.0 any number of times never
    stops. *)
Theorem C5_equal_loss_is_improvement (s : EarlyStopping) (best v : Q) :
  best_loss s = Some best ->
  (delta s == 0)%Q ->
  (v == best)%Q ->
  EarlyStopping_call s v = set_counter (set_best_loss s v) 0 /\
  counter (EarlyStopping_call s v) = 0 /\
  (state_of s = TRACKING -> state_of (EarlyStopping_call s v) = TRACKING) /\
  (forall n, state_of (EarlyStopping_calls (EarlyStopping_init 2 0) (repeat 1%Q n))
             = TRACKING).
Proof.
  intros Hb Hd Hv.
  assert (Hcall : EarlyStopping_call s v = set_counter (set_best_loss s v) 0).
  { unfold EarlyStopping_call. rewrite Hb.
    rewrite (equal_loss_not_above best (delta s) v Hd Hv). reflexivity. }
  rewrite Hcall. repeat split.
  - intro Ht. exact Ht.
  - intros [|n]; [reflexivity |].
    change (EarlyStopping_calls (EarlyStopping_init 2 0) (repeat 1%Q (S n)))
      with (EarlyStopping_calls (mkEarlyStopping 2 0 (Some 1%Q) 0 false) (repeat 1%Q n)).
    rewrite constant_losses_keep_tracking. reflexivity.
Qed.

Lemma C5_equal_loss_is_improvement_witness :
  let s := EarlyStopping_calls (EarlyStopping_init 2 0) [1%Q] in
  best_loss s = Some 1%Q /\ (delta s == 0)%Q /\
  EarlyStopping_call s 1%Q = set_counter (set_best_loss s 1%Q) 0 /\
  state_of (EarlyStopping_calls (EarlyStopping_init 2 0) [1%Q; 1%Q; 1%Q]) = TRACKING.
Proof.
  cbv zeta. split; [reflexivity | split; [reflexivity |]].
  pose proof (C5_equal_loss_is_improvement
                (EarlyStopping_calls (EarlyStopping_init 2 0) [1%Q]) 1%Q 1%Q
                eq_refl (Qeq_refl 0%Q) (Qeq_refl 1%Q)) as H.
  split; [exact (proj1 H) | exact (proj2 (proj2 (proj2 H)) 3%nat)].
Defined.

Lemma counter_below_patience_call (s : EarlyStopping) (v : Q) :
  1 <= patience s ->
  counter_below_patience s -> counter_below_patience (EarlyStopping_call s v).
Proof.
  unfold counter_below_patience, EarlyStopping_call. intros Hp Hinv.
  destruct (best_loss s) as [b|].
  - destruct (Qgt_bool v (b - delta s)); simpl.
    + destruct (counter s + 1 >=? patience s) eqn:Hge; simpl.
      * discriminate.
      * intros _. rewrite Z.geb_leb in Hge. apply Z.leb_gt in Hge. exact Hge.
    + intros _. lia.
  - simpl. exact Hinv.
Qed.

Lemma patience_call (s : EarlyStopping) (v : Q) :
  patience (EarlyStopping_call s v) = patience s.
Proof.
  unfold EarlyStopping_call. destruct (best_loss s) as [b|]; [|reflexivity].
  destruct (Qgt_bool v (b - delta s)); simpl; [|reflexivity].
  destruct (counter s + 1 >=? patience s); reflexivity.
Qed.

Lemma counter_below_patience_calls (losses : list Q) :
  forall s, 1 <= patience s -> counter_below_patience s ->
            counter_below_patience (EarlyStopping_calls s losses).
Proof.
  induction losses as [|v rest IH]; intros s Hp Hinv; simpl.
  - exact Hinv.
  - apply IH.
    + rewrite patience_call. exact Hp.
    + apply counter_below_patience_call; assumption.
Qed.

(** C10. For a monitor built with patience at least 1 and a non-negative
    margin, after any sequence of calls: if the flag is down, the counter is
    below the patience. *)
Theorem C10_counter_below_patience (p : Z) (d : Q) (losses : list Q) :
  1 <= p -> (0 <= d)%Q ->
  let s := EarlyStopping_calls (EarlyStopping_init p d) losses in
  early_stop s = false -> counter s < p.
Proof.
  intros Hp _ s Hflag.
  pose proof (counter_below_patience_calls losses (EarlyStopping_init p d)) as H.
  simpl in H. specialize (H Hp). unfold counter_below_patience in H at 1.
  simpl in H. specialize (H (fun _ => ltac:(lia))).
  destruct (built_with_calls p d losses _ (built_with_init p d)) as (Hpat & _).
  fold s in Hpat. rewrite <- Hpat. apply H. exact Hflag.
Qed.

Lemma C10_counter_below_patience_witness :
  1 <= 2 /\ (0 <= 0)%Q /\
  early_stop (EarlyStopping_calls (EarlyStopping_init 2 0) [1%Q; 2%Q]) = false /\
  counter (EarlyStopping_calls (EarlyStopping_init 2 0) [1%Q; 2%Q]) < 2.
Proof.
  split; [lia | split; [apply Qle_refl | split; [reflexivity |]]].
  apply (C10_counter_below_patience 2 0 [1%Q; 2%Q]);
    [lia | apply Qle_refl | reflexivity].
Defined.

(** The epoch loop of [objective] never calls a monitor that has stopped:
    it runs the monitor over a prefix of the losses, every call but the last
    leaving the flag down. *)
Lemma objective_epochs_prefix (val_losses : list Q) :
  forall s e, exists k,
    (k <= length val_losses)%nat /\
    objective_epochs s val_losses e
    = (EarlyStopping_calls s (firstn k val_losses), (e + k)%nat) /\
    (forall j, (0 < j < k)%nat ->
               early_stop (EarlyStopping_calls s (firstn j val_losses)) = false).
Proof.
  induction val_losses as [|v rest IH]; intros s e.
  - exists 0%nat. simpl. rewrite Nat.add_0_r. repeat split; [lia | intros j Hj; lia].
  - cbn [objective_epochs]. destruct (early_stop (EarlyStopping_call s v)) eqn:Hstop.
    + exists 1%nat. simpl. rewrite Nat.add_1_r. repeat split; [lia | intros j Hj; lia].
    + destruct (IH (EarlyStopping_call s v) (S e)) as (k & Hk & Hrun & Hdown).
      exists (S k). simpl. rewrite Hrun. repeat split; [lia | f_equal; lia |].
      intros [|[|j]] Hj; [lia | exact Hstop |].
      apply (Hdown (S j)). lia.
Qed.

(** ** Best-trial selection *)

Lemma callback_finished (g : Selection) (t : Z * Q * string) :
  save_best_model_callback g (trial_of t) =
  Return (if Qlt_bool (loss_of t) (best_validation_loss g) then replaced_by t else g).
Proof.
  destruct t as [[n l] p]. unfold save_best_model_callback, trial_of, replaced_by,
    loss_of, path_of. simpl.
  destruct (Qlt_bool l (best_validation_loss g)); reflexivity.
Qed.

Lemma callback_never_regresses (g g' : Selection) (t : Trial) :
  save_best_model_callback g t = Return g' ->
  (best_validation_loss g' <= best_validation_loss g)%Q.
Proof.
  unfold save_best_model_callback.
  destruct (attr_best_val_loss t) as [l|]; simpl; [|discriminate].
  destruct (attr_best_model_path t) as [p|]; simpl; [|discriminate].
  destruct (Qlt_bool l (best_validation_loss g)) eqn:Hlt; intro H;
    injection H as <-; simpl.
  - apply Qlt_le_weak. apply Qlt_bool_true. exact Hlt.
  - apply Qle_refl.
Qed.

(** What a run of the callback over finished trials leaves behind, from any
    starting record [g]. *)
Lemma optimize_finished (ts : list (Z * Q * string)) :
  forall g, exists g',
    optimize_callbacks g (map trial_of ts) = Return g' /\
    (best_validation_loss g' <= best_validation_loss g)%Q /\
    (forall t, In t ts -> (best_validation_loss g' <= loss_of t)%Q) /\
    ((g' = g /\ forall t, In t ts -> (best_validation_loss g <= loss_of t)%Q) \/
     (exists t, In t ts /\ (loss_of t < best_validation_loss g)%Q /\ g' = replaced_by t)).
Proof.
  induction ts as [|t rest IH]; intro g.
  - exists g. simpl. repeat split.
    + apply Qle_refl.
    + intros t [].
    + left. split; [reflexivity | intros t []].
  - simpl. rewrite callback_finished. simpl.
    destruct (Qlt_bool (loss_of t) (best_validation_loss g)) eqn:Hlt.
    + apply Qlt_bool_true in Hlt.
      destruct (IH (replaced_by t)) as (g' & Hrun & Hle & Hall & Hcase).
      exists g'. simpl in Hle. split; [exact Hrun | split; [| split]].
      * apply Qle_trans with (loss_of t); [exact Hle | apply Qlt_le_weak; exact Hlt].
      * intros t' [<- | Hin]; [exact Hle | apply Hall; exact Hin].
      * right. destruct Hcase as [[-> _] | (t' & Hin & Hlt' & ->)].
        -- exists t. split; [left; reflexivity | split; [exact Hlt | reflexivity]].
        -- exists t'. split; [right; exact Hin | split; [| reflexivity]].
           simpl in Hlt'. apply Qlt_trans with (loss_of t); assumption.
    + apply Qlt_bool_false in Hlt.
      destruct (IH g) as (g' & Hrun & Hle & Hall & Hcase).
      exists g'. split; [exact Hrun | split; [exact Hle | split]].
      * intros t' [<- | Hin]; [| apply Hall; exact Hin].
        apply Qle_trans with (best_validation_loss g); assumption.
      * destruct Hcase as [[-> Hge] | (t' & Hin & Hlt' & ->)].
        -- left. split; [reflexivity |].
           intros t' [<- | Hin]; [exact Hlt | apply Hge; exact Hin].
        -- right. exists t'. split; [right; exact Hin | split; [exact Hlt' | reflexivity]].
Qed.

(** C4, as the claim states it, fails: the global best starts at the finite
    value 1000000, so a trial whose loss is not below it is not recorded, and
    the reference does not point to the trial with the lowest loss seen. *)
Lemma C4_counterexample :
  let t := finished_trial 0 2000000%Q "checkpoints/tmp_model_trial_0.pth" in
  exists g,
    optimize_callbacks main_globals [t] = Return g /\
    best_model_path g = None /\
    best_model_path g <> attr_best_model_path t /\
    (best_validation_loss g == 1000000)%Q.
Proof.
  exists main_globals. repeat split. discriminate.
Qed.

(** C4, amended.  The global best starts at 1000000.  The callback replaces
    the record (loss and both checkpoint references) when the trial's loss is
    strictly lower and otherwise changes nothing; the recorded loss never
    goes up.  After any sequence of finished trials the recorded loss is a
    lower bound of 1000000 and of every loss seen; if some loss was below
    1000000 the record is that of a trial with the lowest loss seen, and
    otherwise the record is still the initial one. *)
Theorem C4_best_trial_selection :
  (best_validation_loss main_globals == 1000000)%Q /\
  (forall g t, save_best_model_callback g (trial_of t) =
               Return (if Qlt_bool (loss_of t) (best_validation_loss g)
                       then replaced_by t else g)) /\
  (forall g t, (loss_of t < best_validation_loss g)%Q <->
               save_best_model_callback g (trial_of t) = Return (replaced_by t) /\
               Qlt_bool (loss_of t) (best_validation_loss g) = true) /\
  (forall g t g', save_best_model_callback g t = Return g' ->
                  (best_validation_loss g' <= best_validation_loss g)%Q) /\
  (forall ts, exists g,
      optimize_callbacks main_globals (map trial_of ts) = Return g /\
      (best_validation_loss g <= 1000000)%Q /\
      (forall t, In t ts -> (best_validation_loss g <= loss_of t)%Q) /\
      ((g = main_globals /\ forall t, In t ts -> (1000000 <= loss_of t)%Q) \/
       (exists t, In t ts /\ (loss_of t < 1000000)%Q /\ g = replaced_by t))).
Proof.
  split; [apply Qeq_refl | split; [exact callback_finished | split; [| split]]].
  - intros g t. rewrite callback_finished. split.
    + intro Hlt. apply Qlt_bool_true in Hlt. rewrite Hlt. split; reflexivity.
    + intros [_ Hlt]. apply Qlt_bool_true. exact Hlt.
  - intros g t g'. exact (callback_never_regresses g g' t).
  - intro ts. exact (optimize_finished ts main_globals).
Qed.

Lemma C4_best_trial_selection_witness :
  let ts := [(0, (5 # 10)%Q, "a"%string); (1, (3 # 10)%Q, "b"%string);
             (2, (4 # 10)%Q, "c"%string); (3, (2 # 10)%Q, "d"%string)] in
  optimize_callbacks main_globals (map trial_of ts)
  = Return (replaced_by (3%Z, (2 # 10)%Q, "d"%string)) /\
  (best_validation_loss (replaced_by (3%Z, (2 # 10)%Q, "d"%string))
     <= best_validation_loss main_globals)%Q.
Proof.
  cbv zeta. split; [reflexivity |].
  apply (proj1 (proj2 (proj2 (proj2 C4_best_trial_selection)))
           main_globals (trial_of (3%Z, (2 # 10)%Q, "d"%string))).
  reflexivity.
Defined.

(** ** Labels and the target checks *)

Lemma np_unique_binary (l : list Z) :
  binary_labels l ->
  np_unique l = (if existsb (Z.eqb 0) l then [0] else [])
                ++ (if existsb (Z.eqb 1) l then [1] else []).
Proof.
  induction 1 as [|y l Hy _ IH]; [reflexivity |].
  change (np_unique (y :: l)) with (insert_unique y (np_unique l)). rewrite IH.
  destruct Hy as [-> | ->]; simpl;
    destruct (existsb (Z.eqb 0) l), (existsb (Z.eqb 1) l); reflexivity.
Qed.

Lemma binary_np_greater_int (scores : list Q) (c : Q) :
  binary_labels (np_greater_int scores c).
Proof.
  unfold binary_labels, np_greater_int. apply Forall_forall. intros y Hin.
  apply in_map_iff in Hin. destruct Hin as (s & <- & _).
  destruct (Qgt_bool s c); [right | left]; reflexivity.
Qed.

Lemma length_np_greater_int (scores : list Q) (c : Q) :
  length (np_greater_int scores c) = length scores.
Proof. apply length_map. Qed.

Lemma check_consistent_length_same {A B : Type} (a : list A) (b : list B) :
  length a = length b -> check_consistent_length a b = Return tt.
Proof.
  intro H. unfold check_consistent_length. rewrite H, Nat.eqb_refl. reflexivity.
Qed.

Lemma check_consistent_length_differ {A B : Type} (a : list A) (b : list B) :
  length a <> length b -> check_consistent_length a b = Raise ValueError.
Proof.
  intro H. unfold check_consistent_length.
  destruct (Nat.eqb_spec (length a) (length b)); [contradiction | reflexivity].
Qed.

Lemma check_binary_average_binary (y_true y_pred : list Z) :
  length y_true = length y_pred ->
  binary_labels y_true -> binary_labels y_pred ->
  check_binary_average y_true y_pred = Return tt.
Proof.
  intros Hlen Ht Hp. unfold check_binary_average.
  rewrite (check_consistent_length_same _ _ Hlen). simpl.
  rewrite np_unique_binary by (apply Forall_app; split; assumption).
  destruct (existsb (Z.eqb 0) (y_true ++ y_pred)),
           (existsb (Z.eqb 1) (y_true ++ y_pred)); reflexivity.
Qed.

(** ** Accuracy *)

Lemma code_positive_iff (s : Q) :
  Qgt_bool s (1 # 2) = classified_positive s.
Proof.
  unfold classified_positive. destruct (Qlt_le_dec (1 # 2) s) as [H | H].
  - apply Qgt_bool_true. exact H.
  - apply Qgt_bool_false. exact H.
Qed.

Lemma count_true_bounds (mask : list bool) :
  0 <= count_true mask <= Z.of_nat (length mask).
Proof.
  induction mask as [|b mask IH]; simpl; [lia |].
  destruct b; lia.
Qed.

Lemma accuracy_counts (labels : list Z) :
  binary_labels labels ->
  forall scores, length labels = length scores ->
    count_true (map2 Z.eqb labels (np_greater_int scores (1 # 2)))
    = TP labels scores + TN labels scores /\
    Z.of_nat (length (map2 Z.eqb labels (np_greater_int scores (1 # 2))))
    = TP labels scores + TN labels scores + FP labels scores + FN labels scores.
Proof.
  unfold TP, TN, FP, FN, confusion_count, map2, np_greater_int.
  induction 1 as [|y labels Hy _ IH]; intros [|s scores] Hlen; try discriminate.
  - split; reflexivity.
  - injection Hlen as Hlen. destruct (IH scores Hlen) as [IH1 IH2].
    cbn [map combine fst snd count_true fold_right length] in *.
    unfold count_true in *. cbn [map combine fst snd fold_right length] in *.
    rewrite code_positive_iff.
    rewrite Nat2Z.inj_succ. 
    destruct Hy as [-> | ->]; destruct (classified_positive s); simpl; lia.
Qed.

(** C9. For equal-length, non-empty label and score sequences with labels in
    {0,1}, [calculate_metrics] returns as accuracy (TP+TN)/(TP+TN+FP+FN),
    where a sample is counted positive iff its score is strictly above 0.5;
    the code's binarization is that rule, so a score of exactly 0.5 is
    classified negative.  [calculate_metrics_4] reports the same accuracy. *)
Theorem C9_accuracy_formula (labels : list Z) (scores : list Q) :
  labels <> [] ->
  length labels = length scores ->
  binary_labels labels ->
  (exists acc recall f1,
      calculate_metrics labels scores = Return (Fin acc, recall, f1) /\
      (acc == inject_Z (TP labels scores + TN labels scores)
              / inject_Z (TP labels scores + TN labels scores
                          + FP labels scores + FN labels scores))%Q /\
      (exists m, calculate_metrics_4 labels scores = Return m /\ m_accuracy m = Fin acc)) /\
  0 < TP labels scores + TN labels scores + FP labels scores + FN labels scores /\
  (forall s, np_greater_int [s] (1 # 2) = [if classified_positive s then 1 else 0]) /\
  (forall s, (s == 1 # 2)%Q -> np_greater_int [s] (1 # 2) = [0]).
Proof.
  intros Hne Hlen Hbin.
  pose proof (accuracy_counts labels Hbin scores Hlen) as [Hc Hn].
  assert (Hlen' : length labels = length (np_greater_int scores (1 # 2)))
    by (rewrite length_np_greater_int; exact Hlen).
  assert (Hmask : map2 Z.eqb labels (np_greater_int scores (1 # 2)) <> []).
  { destruct labels as [|y labels]; [contradiction |].
    destruct scores as [|s scores]; discriminate. }
  split; [| split; [| split]].
  - unfold calculate_metrics, calculate_metrics_4, accuracy_score, recall_score,
      f1_score, precision_score.
    rewrite (check_consistent_length_same _ _ Hlen').
    rewrite (check_binary_average_binary _ _ Hlen' Hbin (binary_np_greater_int _ _)).
    cbn [bind]. unfold np_average.
    destruct (map2 Z.eqb labels (np_greater_int scores (1 # 2))) as [|b mask] eqn:Hm;
      [contradiction |].
    rewrite Hc, Hn.
    eexists. eexists. eexists. split; [reflexivity | split; [apply Qeq_refl |]].
    eexists. split; reflexivity.
  - rewrite <- Hn. destruct (map2 Z.eqb labels (np_greater_int scores (1 # 2)));
      [contradiction | simpl; lia].
  - intro s. unfold np_greater_int. simpl. rewrite code_positive_iff. reflexivity.
  - intros s Hs. unfold np_greater_int. simpl.
    replace (Qgt_bool s (1 # 2)) with false; [reflexivity |].
    symmetry. apply Qgt_bool_false. rewrite Hs. apply Qle_refl.
Qed.

Lemma C9_accuracy_formula_witness :
  let labels := [0; 0; 1; 1] in
  let scores := [1 # 10; 1 # 2; 6 # 10; 4 # 10]%Q in
  exists acc recall f1,
    calculate_metrics labels scores = Return (Fin acc, recall, f1) /\
    (acc == 3 # 4)%Q.
Proof.
  cbv zeta.
  assert (Hne : [0; 0; 1; 1] <> []) by discriminate.
  assert (Hbin : binary_labels [0; 0; 1; 1]).
  { unfold binary_labels. repeat (apply Forall_cons; [lia |]). apply Forall_nil. }
  destruct (C9_accuracy_formula [0; 0; 1; 1] [1 # 10; 1 # 2; 6 # 10; 4 # 10]%Q
              Hne eq_refl Hbin) as [(acc & recall & f1 & Hrun & Hacc & _) _].
  exists acc, recall, f1. split; [exact Hrun |].
  rewrite Hacc. reflexivity.
Defined.

(** ** Empty and mismatched inputs *)


Lemma mismatched_lengths_raise (labels : list Z) (scores : list Q) :
  length labels <> length scores ->
  calculate_metrics labels scores = Raise ValueError /\
  calculate_metrics_4 labels scores = Raise ValueError /\
  calculate_eer labels scores = Raise ValueError.
Proof.
  intro Hlen.
  assert (Hlen' : length labels <> length (np_greater_int scores (1 # 2)))
    by (rewrite length_np_greater_int; exact Hlen).
  unfold calculate_metrics, calculate_metrics_4, accuracy_score, calculate_eer,
    roc_curve, binary_clf_curve.
  rewrite (check_consistent_length_differ _ _ Hlen').
  rewrite (check_consistent_length_differ _ _ Hlen).
  repeat split.
Qed.



(** ** Arrays: indices, differences, running sums *)

Lemma length_np_diff_Z (a : list Z) : length (np_diff_Z a) = pred (length a).
Proof.
  induction a as [|x [|y rest] IH]; [reflexivity | reflexivity |].
  change (np_diff_Z (x :: y :: rest)) with ((y - x) :: np_diff_Z (y :: rest)).
  simpl length in *. rewrite IH. reflexivity.
Qed.

Lemma length_np_diff_Q (a : list Q) : length (np_diff_Q a) = pred (length a).
Proof.
  induction a as [|x [|y rest] IH]; [reflexivity | reflexivity |].
  change (np_diff_Q (x :: y :: rest)) with ((y - x)%Q :: np_diff_Q (y :: rest)).
  simpl length in *. rewrite IH. reflexivity.
Qed.

Lemma length_map2 {A B C : Type} (f : A -> B -> C) (xs : list A) (ys : list B) :
  length (map2 f xs ys) = Nat.min (length xs) (length ys).
Proof. unfold map2. rewrite length_map. apply length_combine. Qed.

Lemma map2_map_same {A B C : Type} (f : A -> B -> C) (g : A -> B) (xs : list A) :
  map2 f xs (map g xs) = map (fun x => f x (g x)) xs.
Proof.
  unfold map2. induction xs as [|x xs IH]; [reflexivity |].
  simpl. rewrite IH. reflexivity.
Qed.

Lemma np_where_from_bounds (mask : list bool) :
  forall i, Forall (fun k => (i <= k < i + length mask)%nat) (np_where_from i mask).
Proof.
  induction mask as [|b mask IH]; intro i; simpl; [constructor |].
  assert (H : Forall (fun k => (i <= k < i + S (length mask))%nat)
                     (np_where_from (S i) mask)).
  { eapply Forall_impl; [| apply IH]. simpl. intros k Hk. lia. }
  destruct b; [constructor; [lia | exact H] | exact H].
Qed.

Lemma np_where_from_increasing (mask : list bool) :
  forall i, StronglySorted lt (np_where_from i mask).
Proof.
  induction mask as [|b mask IH]; intro i; simpl; [constructor |].
  destruct b; [| apply IH].
  constructor; [apply IH |].
  eapply Forall_impl; [| apply np_where_from_bounds]. simpl. intros k Hk. lia.
Qed.

Lemma np_where_from_app (m1 m2 : list bool) :
  forall i, np_where_from i (m1 ++ m2)
            = np_where_from i m1 ++ np_where_from (i + length m1) m2.
Proof.
  induction m1 as [|b m1 IH]; intro i; simpl.
  - rewrite Nat.add_0_r. reflexivity.
  - rewrite IH. replace (S i + length m1)%nat with (i + S (length m1))%nat by lia.
    destruct b; reflexivity.
Qed.

Lemma sorted_app_last (l : list nat) (x : nat) :
  StronglySorted lt l -> Forall (fun k => (k < x)%nat) l ->
  StronglySorted lt (l ++ [x]).
Proof.
  induction 1 as [|y l Hs IH Hy]; intro Hall; simpl.
  - constructor; constructor.
  - inversion Hall as [|? ? Hyx Hrest]; subst.
    constructor; [apply IH; exact Hrest |].
    apply Forall_app. split; [exact Hy | constructor; [exact Hyx | constructor]].
Qed.

(** Sum of an integer array. *)
Lemma nth_cumsum_from (a : list Z) :
  forall acc k, (k < length a)%nat ->
    nth k (cumsum_from acc a) 0 = acc + fold_right Z.add 0 (firstn (S k) a).
Proof.
  induction a as [|x a IH]; intros acc k Hk; simpl in Hk; [lia |].
  destruct k as [|k].
  - simpl. destruct a; simpl; lia.
  - change (nth (S k) (cumsum_from acc (x :: a)) 0)
      with (nth k (cumsum_from (acc + x) a) 0).
    rewrite IH by lia.
    change (firstn (S (S k)) (x :: a)) with (x :: firstn (S k) a).
    simpl fold_right. lia.
Qed.

(** ** Counting over the ranked samples *)

Lemma count_true_app (m1 m2 : list bool) :
  count_true (m1 ++ m2) = count_true m1 + count_true m2.
Proof.
  induction m1 as [|b m1 IH]; simpl; [reflexivity |].
  change (fold_right (fun (b : bool) (acc : Z) => if b then acc + 1 else acc) 0 (m1 ++ m2))
    with (count_true (m1 ++ m2)).
  change (fold_right (fun (b : bool) (acc : Z) => if b then acc + 1 else acc) 0 m1)
    with (count_true m1).
  rewrite IH. destruct b; lia.
Qed.

Lemma count_true_cons (b : bool) (m : list bool) :
  count_true (b :: m) = (if b then 1 else 0) + count_true m.
Proof. change (b :: m) with ([b] ++ m). rewrite count_true_app. destruct b; reflexivity. Qed.

Lemma count_true_rev (m : list bool) : count_true (rev m) = count_true m.
Proof.
  induction m as [|b m IH]; [reflexivity |].
  simpl rev. rewrite count_true_app, count_true_cons, IH. simpl. destruct b; lia.
Qed.

Lemma sum_b2z (bs : list bool) :
  fold_right Z.add 0 (map Z.b2z bs) = count_true bs.
Proof.
  induction bs as [|b bs IH]; [reflexivity |].
  rewrite count_true_cons. simpl. rewrite IH. destruct b; reflexivity.
Qed.

Section Counting.
Variable p : Q * bool -> bool.

Lemma count_insert_by_score (x : Q * bool) (l : list (Q * bool)) :
  count_true (map p (insert_by_score x l)) = count_true (map p (x :: l)).
Proof.
  induction l as [|y l IH]; [reflexivity |].
  cbn [insert_by_score]. destruct (Qle_bool (fst x) (fst y)); [reflexivity |].
  cbn [map] in *. rewrite !count_true_cons. rewrite IH, count_true_cons. lia.
Qed.

Lemma count_stable_sort (l : list (Q * bool)) :
  count_true (map p (stable_sort_by_score l)) = count_true (map p l).
Proof.
  induction l as [|x l IH]; [reflexivity |].
  cbn [stable_sort_by_score]. rewrite count_insert_by_score.
  cbn [map]. rewrite !count_true_cons, IH. reflexivity.
Qed.

Lemma count_ranked (y_true : list Z) (y_score : list Q) :
  count_true (map p (ranked y_true y_score))
  = count_true (map p (combine y_score (map (fun y => y =? 1) y_true))).
Proof.
  unfold ranked. rewrite map_rev, count_true_rev. apply count_stable_sort.
Qed.

End Counting.

Lemma length_insert_by_score (x : Q * bool) (l : list (Q * bool)) :
  length (insert_by_score x l) = S (length l).
Proof.
  induction l as [|y l IH]; [reflexivity |].
  simpl. destruct (Qle_bool (fst x) (fst y)); simpl; [reflexivity |].
  rewrite IH. reflexivity.
Qed.

Lemma length_stable_sort (l : list (Q * bool)) :
  length (stable_sort_by_score l) = length l.
Proof.
  induction l as [|x l IH]; [reflexivity |].
  simpl. rewrite length_insert_by_score, IH. reflexivity.
Qed.

Lemma length_ranked (y_true : list Z) (y_score : list Q) :
  length y_true = length y_score ->
  length (ranked y_true y_score) = length y_true.
Proof.
  intro H. unfold ranked.
  rewrite length_rev, length_stable_sort, length_combine, length_map. lia.
Qed.

(** The running count of true positives is the number of positives among
    the first [i+1] ranked samples. *)
Lemma tps_at_prefix (r : list (Q * bool)) (i : nat) :
  (i < length r)%nat ->
  tps_at r i = count_true (map snd (firstn (S i) r)).
Proof.
  intro Hi. unfold tps_at, np_cumsum.
  rewrite nth_cumsum_from by (rewrite !length_map; exact Hi).
  rewrite Z.add_0_l, !firstn_map, sum_b2z. reflexivity.
Qed.

Lemma count_split (r : list (Q * bool)) (k : nat) :
  n_pos r = count_true (map snd (firstn k r)) + count_true (map snd (skipn k r)).
Proof.
  unfold n_pos. rewrite <- (firstn_skipn k r) at 1.
  rewrite map_app, count_true_app. reflexivity.
Qed.

Lemma tps_at_last (r : list (Q * bool)) :
  r <> [] -> tps_at r (length r - 1) = n_pos r.
Proof.
  intro Hne. assert (0 < length r)%nat by (destruct r; [contradiction | simpl; lia]).
  rewrite tps_at_prefix by lia.
  replace (S (length r - 1)) with (length r) by lia.
  rewrite firstn_all. reflexivity.
Qed.

Lemma fps_at_last (r : list (Q * bool)) :
  r <> [] -> fps_at r (length r - 1) = n_neg r.
Proof.
  intro Hne. assert (0 < length r)%nat by (destruct r; [contradiction | simpl; lia]).
  unfold fps_at, n_neg. rewrite tps_at_last by exact Hne. lia.
Qed.

Lemma tps_at_bounds (r : list (Q * bool)) (i : nat) :
  (i < length r)%nat -> 0 <= tps_at r i <= n_pos r.
Proof.
  intro Hi. rewrite tps_at_prefix by exact Hi.
  rewrite (count_split r (S i)).
  pose proof (count_true_bounds (map snd (firstn (S i) r))).
  pose proof (count_true_bounds (map snd (skipn (S i) r))). lia.
Qed.

Lemma fps_at_bounds (r : list (Q * bool)) (i : nat) :
  (i < length r)%nat -> 0 <= fps_at r i <= n_neg r.
Proof.
  intro Hi. unfold fps_at, n_neg. rewrite tps_at_prefix by exact Hi.
  rewrite (count_split r (S i)).
  pose proof (count_true_bounds (map snd (firstn (S i) r))) as H1.
  pose proof (count_true_bounds (map snd (skipn (S i) r))) as H2.
  rewrite length_map in H1, H2. rewrite length_firstn in H1. rewrite length_skipn in H2.
  lia.
Qed.

(** ** The shape of the ROC curve *)

Lemma check_pos_label_binary (y_true : list Z) :
  binary_labels y_true -> y_true <> [] ->
  check_pos_label_consistency y_true = Return 1.
Proof.
  intros Hbin Hne. unfold check_pos_label_consistency.
  rewrite (np_unique_binary _ Hbin).
  destruct y_true as [|y rest]; [contradiction |].
  inversion Hbin as [|? ? [-> | ->] _]; subst; simpl;
    destruct (existsb (Z.eqb 0) rest), (existsb (Z.eqb 1) rest); reflexivity.
Qed.

Lemma ranked_nonempty (y_true : list Z) (y_score : list Q) :
  length y_true = length y_score -> y_true <> [] -> ranked y_true y_score <> [].
Proof.
  intros Hlen Hne Hr. apply (f_equal (@length _)) in Hr.
  rewrite length_ranked in Hr by exact Hlen.
  destruct y_true; [contradiction | discriminate].
Qed.

Lemma binary_clf_curve_eq (y_true : list Z) (y_score : list Q) :
  length y_true = length y_score -> binary_labels y_true -> y_true <> [] ->
  let r := ranked y_true y_score in
  binary_clf_curve y_true y_score
  = Return (map (fps_at r) (threshold_idxs r),
            map (tps_at r) (threshold_idxs r),
            map (score_at r) (threshold_idxs r)).
Proof.
  intros Hlen Hbin Hne r. unfold binary_clf_curve.
  rewrite (check_consistent_length_same _ _ Hlen).
  rewrite (check_pos_label_binary _ Hbin Hne). cbn [bind].
  fold (ranked y_true y_score). fold r. fold (threshold_idxs r).
  unfold take_idx at 1. rewrite map2_map_same. reflexivity.
Qed.

Lemma sorted_le_last (idxs : list nat) :
  StronglySorted lt idxs -> Forall (fun k => (k <= last idxs 0)%nat) idxs.
Proof.
  induction 1 as [|x l Hs IH Hx]; [constructor |].
  destruct l as [|y l].
  - constructor; [simpl; lia | constructor].
  - change (last (x :: y :: l) 0%nat) with (last (y :: l) 0%nat).
    constructor; [| exact IH].
    inversion Hx as [|? ? Hxy _]; subst. inversion IH as [|? ? Hy _]; subst. lia.
Qed.

Lemma sampled_bound (n : nat) (idxs : list nat) :
  (0 < n)%nat -> sampled n idxs -> Forall (fun k => (k < n)%nat) idxs.
Proof.
  intros Hn (_ & Hs & Hlast). eapply Forall_impl; [| apply sorted_le_last; exact Hs].
  simpl. intros k Hk. lia.
Qed.

Lemma threshold_idxs_sampled (r : list (Q * bool)) :
  r <> [] -> sampled (length r) (threshold_idxs r).
Proof.
  intro Hne. unfold threshold_idxs, sampled. rewrite length_map.
  split; [destruct (np_where _); discriminate | split].
  - apply sorted_app_last; [apply np_where_from_increasing |].
    eapply Forall_impl; [| apply np_where_from_bounds]. simpl.
    unfold nonzero_Q. rewrite length_map, length_np_diff_Q, length_map.
    intros k Hk. lia.
  - apply last_last.
Qed.

Lemma optimal_idxs_sampled (fps tps : list Z) :
  length fps = length tps -> (2 < length fps)%nat ->
  sampled (length fps) (optimal_idxs fps tps).
Proof.
  intros Hlen Hm. unfold optimal_idxs, sampled, np_where.
  split; [discriminate | split; [apply np_where_from_increasing |]].
  cbn [np_where_from]. rewrite np_where_from_app. cbn [np_where_from].
  rewrite app_comm_cons, last_last.
  rewrite length_map2. unfold nonzero_Z.
  rewrite !length_map, !length_np_diff_Z, <- Hlen. lia.
Qed.

Lemma sorted_nth_lt (idxs : list nat) :
  StronglySorted lt idxs ->
  forall j k, (j < k < length idxs)%nat -> (nth j idxs 0 < nth k idxs 0)%nat.
Proof.
  induction 1 as [|x l Hs IH Hx]; intros j k Hjk; simpl in Hjk; [lia |].
  destruct k as [|k]; [lia |]. destruct j as [|j].
  - simpl. rewrite Forall_forall in Hx. apply Hx. apply nth_In. lia.
  - simpl. apply IH. lia.
Qed.

Lemma nth_last {A : Type} (l : list A) (d : A) :
  nth (length l - 1) l d = last l d.
Proof.
  induction l as [|x [|y l] IH]; [reflexivity | reflexivity |].
  change (last (x :: y :: l) d) with (last (y :: l) d). rewrite <- IH.
  simpl. rewrite Nat.sub_0_r. reflexivity.
Qed.

Lemma last_map_nonempty {A B : Type} (f : A -> B) (l : list A) (d : A) (d' : B) :
  l <> [] -> last (map f l) d' = f (last l d).
Proof.
  induction l as [|x [|y l] IH]; intro Hne; [contradiction | reflexivity |].
  change (last (map f (x :: y :: l)) d') with (last (map f (y :: l)) d').
  change (last (x :: y :: l) d) with (last (y :: l) d).
  apply IH. discriminate.
Qed.

Lemma sorted_map_nth (idxs sel : list nat) :
  StronglySorted lt idxs -> StronglySorted lt sel ->
  Forall (fun j => (j < length idxs)%nat) sel ->
  StronglySorted lt (map (fun j => nth j idxs 0%nat) sel).
Proof.
  intros Hs Hsel. induction Hsel as [|j sel Hsel IH Hj]; intro Hb; simpl.
  - constructor.
  - inversion Hb as [|? ? Hjb Hrest]; subst.
    constructor; [apply IH; exact Hrest |].
    rewrite Forall_forall in *. intros x Hx. apply in_map_iff in Hx.
    destruct Hx as (k & <- & Hk).
    apply sorted_nth_lt; [exact Hs |]. split; [apply Hj; exact Hk | apply Hrest; exact Hk].
Qed.

Lemma take_sampled (n : nat) (idxs sel : list nat) :
  sampled n idxs -> sampled (length idxs) sel ->
  sampled n (take_idx 0%nat idxs sel) /\ incl (take_idx 0%nat idxs sel) idxs.
Proof.
  intros (Hne & Hs & Hlast) Hsel.
  assert (Hpos : (0 < length idxs)%nat) by (destruct idxs; [contradiction | simpl; lia]).
  pose proof (sampled_bound _ _ Hpos Hsel) as Hb.
  destruct Hsel as (Hne' & Hs' & Hlast'). unfold take_idx. split.
  - split; [destruct sel; [contradiction | discriminate] | split].
    + apply sorted_map_nth; assumption.
    + rewrite (last_map_nonempty _ sel 0%nat) by exact Hne'.
      rewrite Hlast', nth_last. exact Hlast.
  - intros x Hx. apply in_map_iff in Hx. destruct Hx as (j & <- & Hj).
    apply nth_In. rewrite Forall_forall in Hb. apply Hb. exact Hj.
Qed.

Lemma take_idx_map {A B : Type} (f : A -> B) (d : A) (d' : B)
  (a : list A) (sel : list nat) :
  Forall (fun j => (j < length a)%nat) sel ->
  take_idx d' (map f a) sel = map f (take_idx d a sel).
Proof.
  unfold take_idx. intro Hb. rewrite map_map. apply map_ext_in.
  intros j Hj. rewrite Forall_forall in Hb.
  rewrite (nth_indep _ d' (f d)) by (rewrite length_map; apply Hb; exact Hj).
  apply map_nth.
Qed.

(** For labels in {0,1} and scores of the same length, [roc_curve] returns the
    rates at a sampled selection of the threshold positions, after the point
    (0,0) with threshold [np.inf]. *)
Lemma roc_curve_eq (y_true : list Z) (y_score : list Q) :
  length y_true = length y_score -> binary_labels y_true -> y_true <> [] ->
  let r := ranked y_true y_score in
  exists idxs,
    sampled (length r) idxs /\ incl idxs (threshold_idxs r) /\
    roc_curve y_true y_score
    = Return (rate_of (0 :: map (fps_at r) idxs),
              rate_of (0 :: map (tps_at r) idxs),
              None :: map Some (map (score_at r) idxs)).
Proof.
  intros Hlen Hbin Hne r. unfold roc_curve.
  rewrite (binary_clf_curve_eq _ _ Hlen Hbin Hne). fold r. cbn [bind].
  pose proof (threshold_idxs_sampled r (ranked_nonempty _ _ Hlen Hne)) as Hs.
  destruct (2 <? length (map (fps_at r) (threshold_idxs r)))%nat eqn:Hm.
  - apply Nat.ltb_lt in Hm.
    pose proof (optimal_idxs_sampled (map (fps_at r) (threshold_idxs r))
                  (map (tps_at r) (threshold_idxs r))
                  ltac:(rewrite !length_map; reflexivity) Hm) as Hopt.
    rewrite length_map in Hopt at 1.
    destruct (take_sampled _ _ _ Hs Hopt) as [Hts Hincl].
    assert (Hb : Forall (fun j => (j < length (threshold_idxs r))%nat)
                        (optimal_idxs (map (fps_at r) (threshold_idxs r))
                                      (map (tps_at r) (threshold_idxs r)))).
    { apply sampled_bound; [| exact Hopt].
      rewrite length_map in Hm. lia. }
    eexists. split; [exact Hts | split; [exact Hincl |]].
    rewrite !(take_idx_map _ 0%nat) by exact Hb. reflexivity.
  - exists (threshold_idxs r). split; [exact Hs | split; [apply incl_refl | reflexivity]].
Qed.

(** ** Rates and the argmin *)

Lemma map_snd_combine {A B : Type} (a : list A) :
  forall b : list B, length a = length b -> map snd (combine a b) = b.
Proof.
  induction a as [|x a IH]; intros [|y b] Hlen; try discriminate; [reflexivity |].
  simpl. rewrite IH by (injection Hlen; auto). reflexivity.
Qed.

Lemma n_pos_ranked (y_true : list Z) (y_score : list Q) :
  length y_true = length y_score ->
  n_pos (ranked y_true y_score) = count_true (map (fun y => y =? 1) y_true).
Proof.
  intro Hlen. unfold n_pos. rewrite count_ranked.
  rewrite map_snd_combine by (rewrite length_map; symmetry; exact Hlen).
  reflexivity.
Qed.

Lemma count_true_all (f : Z -> bool) (l : list Z) :
  Forall (fun y => f y = true) l -> count_true (map f l) = Z.of_nat (length l).
Proof.
  induction 1 as [|y l Hy _ IH]; [reflexivity |].
  cbn [map]. rewrite count_true_cons, Hy, IH. simpl length. lia.
Qed.

Lemma count_true_none (f : Z -> bool) (l : list Z) :
  Forall (fun y => f y = false) l -> count_true (map f l) = 0.
Proof.
  induction 1 as [|y l Hy _ IH]; [reflexivity |].
  cbn [map]. rewrite count_true_cons, Hy, IH. reflexivity.
Qed.

Lemma count_true_pos (f : Z -> bool) (l : list Z) (y : Z) :
  In y l -> f y = true -> 0 < count_true (map f l).
Proof.
  induction l as [|x l IH]; intros Hin Hy; [contradiction |].
  cbn [map]. rewrite count_true_cons.
  pose proof (count_true_bounds (map f l)).
  destruct Hin as [-> | Hin]; [rewrite Hy; lia |].
  specialize (IH Hin Hy). destruct (f x); lia.
Qed.

Lemma count_true_not_all (f : Z -> bool) (l : list Z) (y : Z) :
  In y l -> f y = false -> count_true (map f l) < Z.of_nat (length l).
Proof.
  induction l as [|x l IH]; intros Hin Hy; [contradiction |].
  cbn [map]. rewrite count_true_cons. simpl length.
  pose proof (count_true_bounds (map f l)) as Hb. rewrite length_map in Hb.
  destruct Hin as [-> | Hin]; [rewrite Hy; lia |].
  specialize (IH Hin Hy). destruct (f x); lia.
Qed.

Lemma last_Z_counts (f : nat -> Z) (idxs : list nat) :
  idxs <> [] -> last_Z (0 :: map f idxs) = f (last idxs 0%nat).
Proof.
  intro Hne. unfold last_Z. destruct idxs as [|i idxs]; [contradiction |].
  change (last (0 :: map f (i :: idxs)) 0) with (last (map f (i :: idxs)) 0).
  apply last_map_nonempty. discriminate.
Qed.

Lemma rate_of_degenerate (counts : list Z) :
  last_Z counts <= 0 -> rate_of counts = repeat NaN (length counts).
Proof.
  intro H. unfold rate_of. apply Z.leb_le in H. rewrite H. reflexivity.
Qed.

Lemma rate_of_regular (counts : list Z) :
  0 < last_Z counts ->
  rate_of counts
  = map Fin (map (fun c => inject_Z c / inject_Z (last_Z counts))%Q counts).
Proof.
  intro H. unfold rate_of. apply Z.leb_gt in H. rewrite H, map_map. reflexivity.
Qed.

Lemma nanargmin_from_all_nan (a : list npfloat) :
  Forall (eq NaN) a -> forall i best, nanargmin_from i a best = best.
Proof.
  induction 1 as [|x a Hx _ IH]; intros i best; [reflexivity |].
  subst x. simpl. apply IH.
Qed.

Lemma nanargmin_all_nan (a : list npfloat) :
  Forall (eq NaN) a -> nanargmin a = Raise ValueError.
Proof.
  intro H. unfold nanargmin. rewrite (nanargmin_from_all_nan a H). reflexivity.
Qed.

Lemma gaps_nan_left (fnr fpr : list npfloat) :
  Forall (eq NaN) fnr -> Forall (eq NaN) (map np_abs (map2 np_sub fnr fpr)).
Proof.
  intro H. rewrite Forall_forall in *. intros x Hx.
  apply in_map_iff in Hx. destruct Hx as (d & <- & Hd).
  unfold map2 in Hd. apply in_map_iff in Hd. destruct Hd as ([a b] & <- & Hab).
  apply in_combine_l in Hab. rewrite <- (H a Hab). reflexivity.
Qed.

Lemma gaps_nan_right (fnr fpr : list npfloat) :
  Forall (eq NaN) fpr -> Forall (eq NaN) (map np_abs (map2 np_sub fnr fpr)).
Proof.
  intro H. rewrite Forall_forall in *. intros x Hx.
  apply in_map_iff in Hx. destruct Hx as (d & <- & Hd).
  unfold map2 in Hd. apply in_map_iff in Hd. destruct Hd as ([a b] & <- & Hab).
  apply in_combine_r in Hab. rewrite <- (H b Hab). simpl. destruct a; reflexivity.
Qed.

Lemma repeat_nan_all (k : nat) : Forall (eq NaN) (repeat NaN k).
Proof. induction k; simpl; constructor; auto. Qed.

Lemma fnr_nan_all (tpr : list npfloat) :
  Forall (eq NaN) tpr -> Forall (eq NaN) (map (np_sub (Fin 1)) tpr).
Proof.
  intro H. rewrite Forall_forall in *. intros x Hx.
  apply in_map_iff in Hx. destruct Hx as (t & <- & Ht).
  rewrite <- (H t Ht). reflexivity.
Qed.

(** C7. For a non-empty label sequence whose entries are all 0 or all 1,
    [calculate_eer] raises (a [ValueError]) whatever the scores are; it
    returns no value. *)
Theorem C7_single_class_fails (labels : list Z) (scores : list Q) :
  labels <> [] ->
  Forall (eq 0) labels \/ Forall (eq 1) labels ->
  calculate_eer labels scores = Raise ValueError /\
  ~ (exists v, calculate_eer labels scores = Return v).
Proof.
  intros Hne Hone.
  assert (Hraise : calculate_eer labels scores = Raise ValueError);
    [| split; [exact Hraise | intros [v Hv]; rewrite Hraise in Hv; discriminate]].
  destruct (Nat.eq_dec (length labels) (length scores)) as [Hlen | Hlen];
    [| exact (proj2 (proj2 (mismatched_lengths_raise labels scores Hlen)))].
  assert (Hbin : binary_labels labels).
  { destruct Hone as [H | H]; (eapply Forall_impl; [| exact H]); simpl;
      intros y <-; [left | right]; reflexivity. }
  destruct (roc_curve_eq labels scores Hlen Hbin Hne) as (idxs & Hs & _ & Hroc).
  pose proof (ranked_nonempty _ _ Hlen Hne) as Hr.
  unfold calculate_eer. rewrite Hroc. cbn [bind].
  destruct Hs as (Hi & _ & Hlast).
  destruct Hone as [H0 | H1].
  - rewrite (rate_of_degenerate (0 :: map (tps_at _) idxs)).
    + rewrite nanargmin_all_nan; [reflexivity |].
      apply gaps_nan_left, fnr_nan_all, repeat_nan_all.
    + rewrite last_Z_counts by exact Hi. rewrite Hlast, tps_at_last by exact Hr.
      rewrite n_pos_ranked by exact Hlen. rewrite count_true_none; [lia |].
      eapply Forall_impl; [| exact H0]. simpl. intros y <-. reflexivity.
  - rewrite (rate_of_degenerate (0 :: map (fps_at _) idxs)).
    + rewrite nanargmin_all_nan; [reflexivity |].
      apply gaps_nan_right, repeat_nan_all.
    + rewrite last_Z_counts by exact Hi. rewrite Hlast, fps_at_last by exact Hr.
      unfold n_neg. rewrite n_pos_ranked by exact Hlen.
      rewrite length_ranked by exact Hlen.
      rewrite count_true_all; [lia |].
      eapply Forall_impl; [| exact H1]. simpl. intros y <-. reflexivity.
Qed.

Lemma C7_single_class_fails_witness :
  [0; 0; 0] <> [] /\
  calculate_eer [0; 0; 0] [1 # 10; 4 # 10; 9 # 10]%Q = Raise ValueError /\
  calculate_eer [1; 1] [1 # 10; 9 # 10]%Q = Raise ValueError.
Proof.
  assert (H3 : [0; 0; 0] <> []) by discriminate.
  assert (H2 : [1; 1] <> []) by discriminate.
  split; [exact H3 | split].
  - apply (C7_single_class_fails [0; 0; 0] [1 # 10; 4 # 10; 9 # 10]%Q H3).
    left. repeat constructor.
  - apply (C7_single_class_fails [1; 1] [1 # 10; 9 # 10]%Q H2).
    right. repeat constructor.
Defined.

(** ** The ranking is by decreasing score *)

Lemma insert_by_score_In (x z : Q * bool) (l : list (Q * bool)) :
  In z (insert_by_score x l) -> z = x \/ In z l.
Proof.
  induction l as [|y l IH]; simpl.
  - intros [<- | []]. left; reflexivity.
  - destruct (Qle_bool (fst x) (fst y)).
    + intros [<- | H]; [left; reflexivity | right; exact H].
    + intros [<- | H]; [right; left; reflexivity |].
      destruct (IH H) as [-> | Hin]; [left; reflexivity | right; right; exact Hin].
Qed.

Lemma insert_by_score_sorted (x : Q * bool) (l : list (Q * bool)) :
  StronglySorted le_score l -> StronglySorted le_score (insert_by_score x l).
Proof.
  induction 1 as [|y l Hs IH Hy]; simpl.
  - constructor; constructor.
  - destruct (Qle_bool (fst x) (fst y)) eqn:Hle.
    + apply Qle_bool_iff in Hle.
      constructor; [constructor; assumption |].
      constructor; [exact Hle |].
      eapply Forall_impl; [| exact Hy]. unfold le_score. intros z Hz.
      apply Qle_trans with (fst y); assumption.
    + constructor; [exact IH |].
      rewrite Forall_forall in *. intros z Hz.
      destruct (insert_by_score_In _ _ _ Hz) as [-> | Hin]; [| apply Hy; exact Hin].
      unfold le_score. apply Qlt_le_weak. apply Qgt_bool_true.
      unfold Qgt_bool. rewrite Hle. reflexivity.
Qed.

Lemma stable_sort_sorted (l : list (Q * bool)) :
  StronglySorted le_score (stable_sort_by_score l).
Proof.
  induction l as [|x l IH]; simpl; [constructor |].
  apply insert_by_score_sorted. exact IH.
Qed.

Lemma sorted_nth_le (l : list (Q * bool)) (d : Q * bool) :
  StronglySorted le_score l ->
  forall j k, (j < k < length l)%nat -> le_score (nth j l d) (nth k l d).
Proof.
  induction 1 as [|x l Hs IH Hx]; intros j k Hjk; simpl in Hjk; [lia |].
  destruct k as [|k]; [lia |]. destruct j as [|j].
  - simpl. rewrite Forall_forall in Hx. apply Hx. apply nth_In. lia.
  - simpl. apply IH. lia.
Qed.

Lemma score_at_nth (r : list (Q * bool)) (i : nat) :
  score_at r i = fst (nth i r (0%Q, false)).
Proof. unfold score_at. exact (map_nth fst r (0%Q, false) i). Qed.

Lemma ranked_descending (y_true : list Z) (y_score : list Q) :
  descending (ranked y_true y_score).
Proof.
  unfold descending, ranked. intros j k Hjk. rewrite !score_at_nth.
  rewrite length_rev in Hjk.
  rewrite !rev_nth by lia.
  destruct (Nat.eq_dec j k) as [-> | Hne]; [apply Qle_refl |].
  apply (sorted_nth_le _ _ (stable_sort_sorted _)). lia.
Qed.

(** ** Threshold positions are the ends of the runs of equal scores *)

Lemma np_where_from_In (mask : list bool) :
  forall s i, In i (np_where_from s mask) ->
              (s <= i)%nat /\ nth (i - s) mask false = true.
Proof.
  induction mask as [|b mask IH]; intros s i Hin; simpl in Hin; [contradiction |].
  assert (Hrest : In i (np_where_from (S s) mask) ->
                  (s <= i)%nat /\ nth (i - s) (b :: mask) false = true).
  { intro H. destruct (IH _ _ H) as [Hle Hnth]. split; [lia |].
    replace (i - s)%nat with (S (i - S s)) by lia. exact Hnth. }
  destruct b; [| exact (Hrest Hin)].
  destruct Hin as [<- | Hin]; [| exact (Hrest Hin)].
  split; [lia |]. rewrite Nat.sub_diag. reflexivity.
Qed.

Lemma nth_nonzero_diff (l : list Q) :
  forall i, (S i < length l)%nat ->
    nth i (nonzero_Q (np_diff_Q l)) false
    = negb (Qeq_bool (nth (S i) l 0 - nth i l 0)%Q 0).
Proof.
  induction l as [|x [|y rest] IH]; intros i Hi; simpl in Hi; try lia.
  change (np_diff_Q (x :: y :: rest)) with ((y - x)%Q :: np_diff_Q (y :: rest)).
  destruct i as [|i]; [reflexivity |].
  change (nth (S i) (nonzero_Q ((y - x)%Q :: np_diff_Q (y :: rest))) false)
    with (nth i (nonzero_Q (np_diff_Q (y :: rest))) false).
  rewrite IH by (simpl; lia). reflexivity.
Qed.

Lemma threshold_idxs_bound (r : list (Q * bool)) (i : nat) :
  r <> [] -> In i (threshold_idxs r) -> (i < length r)%nat.
Proof.
  intros Hne Hin.
  assert (Hpos : (0 < length r)%nat) by (destruct r; [contradiction | simpl; lia]).
  pose proof (sampled_bound _ _ Hpos (threshold_idxs_sampled r Hne)) as Hb.
  rewrite Forall_forall in Hb. apply Hb. exact Hin.
Qed.

(** After a threshold position every score is strictly lower. *)
Lemma threshold_drop (r : list (Q * bool)) (i m : nat) :
  descending r -> In i (threshold_idxs r) -> (i < m < length r)%nat ->
  (score_at r m < score_at r i)%Q.
Proof.
  intros Hd Hin Him. unfold threshold_idxs in Hin. apply in_app_or in Hin.
  destruct Hin as [Hin | [Hlast | []]];
    [| rewrite length_map in Hlast; lia].
  apply np_where_from_In in Hin. destruct Hin as [_ Hnth].
  rewrite Nat.sub_0_r in Hnth.
  rewrite nth_nonzero_diff in Hnth by (rewrite length_map; lia).
  fold (score_at r (S i)) in Hnth. fold (score_at r i) in Hnth.
  apply negb_true_iff in Hnth. apply Qeq_bool_neq in Hnth.
  assert (Hstep : (score_at r (S i) < score_at r i)%Q).
  { destruct (proj1 (Qle_lteq _ _) (Hd i (S i) ltac:(lia))) as [Hlt | Heq];
      [exact Hlt |].
    exfalso. apply Hnth. rewrite Heq. ring. }
  apply Qle_lt_trans with (score_at r (S i)); [| exact Hstep].
  apply Hd. lia.
Qed.

(** ** The sampled counts are the counts at the threshold *)

Lemma count_true_ext {A : Type} (f g : A -> bool) (l : list A) :
  (forall x, In x l -> f x = g x) ->
  count_true (map f l) = count_true (map g l).
Proof. intro H. rewrite (map_ext_in f g l H). reflexivity. Qed.

Lemma count_true_false {A : Type} (f : A -> bool) (l : list A) :
  (forall x, In x l -> f x = false) -> count_true (map f l) = 0.
Proof.
  induction l as [|x l IH]; intro H; [reflexivity |].
  cbn [map]. rewrite count_true_cons, (H x (or_introl eq_refl)), IH;
    [reflexivity | intros y Hy; apply H; right; exact Hy].
Qed.

Lemma count_true_negb {A : Type} (f : A -> bool) (l : list A) :
  count_true (map (fun x => negb (f x)) l)
  = Z.of_nat (length l) - count_true (map f l).
Proof.
  induction l as [|x l IH]; [reflexivity |].
  cbn [map]. rewrite !count_true_cons, IH. simpl length.
  destruct (f x); simpl negb; cbv iota; lia.
Qed.

Lemma In_firstn_nth {A : Type} (l : list A) (k : nat) (x d : A) :
  In x (firstn k l) -> exists j, (j < k)%nat /\ (j < length l)%nat /\ x = nth j l d.
Proof.
  intro Hin. destruct (In_nth _ _ d Hin) as (j & Hj & Hx).
  rewrite length_firstn in Hj. rewrite nth_firstn in Hx.
  exists j. destruct (Nat.ltb_spec j k); [| lia].
  repeat split; [lia | lia | symmetry; exact Hx].
Qed.

Lemma In_skipn_nth {A : Type} (l : list A) (k : nat) (x d : A) :
  In x (skipn k l) -> exists j, (k <= j)%nat /\ (j < length l)%nat /\ x = nth j l d.
Proof.
  intro Hin. destruct (In_nth _ _ d Hin) as (j & Hj & Hx).
  rewrite length_skipn in Hj. rewrite nth_skipn in Hx.
  exists (k + j)%nat. repeat split; [lia | lia | symmetry; exact Hx].
Qed.

Lemma counts_at_threshold (r : list (Q * bool)) (i : nat) :
  descending r -> r <> [] -> In i (threshold_idxs r) ->
  tps_at r i
  = count_true (map (fun p => snd p && Qle_bool (score_at r i) (fst p)) r) /\
  fps_at r i
  = count_true (map (fun p => negb (snd p) && Qle_bool (score_at r i) (fst p)) r).
Proof.
  intros Hd Hne Hin.
  pose proof (threshold_idxs_bound r i Hne Hin) as Hi.
  assert (Hlow : forall x, In x (firstn (S i) r) ->
                           Qle_bool (score_at r i) (fst x) = true).
  { intros x Hx. destruct (In_firstn_nth _ _ _ (0%Q, false) Hx) as (j & Hj & Hjl & ->).
    rewrite <- score_at_nth. apply Qle_bool_iff. apply Hd. lia. }
  assert (Hhigh : forall x, In x (skipn (S i) r) ->
                            Qle_bool (score_at r i) (fst x) = false).
  { intros x Hx. destruct (In_skipn_nth _ _ _ (0%Q, false) Hx) as (j & Hj & Hjl & ->).
    rewrite <- score_at_nth. apply negb_true_iff.
    apply (proj2 (Qgt_bool_true (score_at r i) (score_at r j))).
    apply (threshold_drop r i j Hd Hin). lia. }
  unfold fps_at. rewrite tps_at_prefix by exact Hi.
  rewrite <- (firstn_skipn (S i) r) at 2 4.
  rewrite !map_app, !count_true_app.
  rewrite (count_true_false _ (skipn (S i) r))
    by (intros x Hx; rewrite (Hhigh x Hx); apply andb_false_r).
  rewrite (count_true_false _ (skipn (S i) r))
    by (intros x Hx; rewrite (Hhigh x Hx); apply andb_false_r).
  rewrite (count_true_ext (fun p => snd p && Qle_bool (score_at r i) (fst p)) snd)
    by (intros x Hx; rewrite (Hlow x Hx); apply andb_true_r).
  rewrite (count_true_ext (fun p => negb (snd p) && Qle_bool (score_at r i) (fst p))
             (fun p => negb (snd p)))
    by (intros x Hx; rewrite (Hlow x Hx); apply andb_true_r).
  rewrite count_true_negb, length_firstn. split; lia.
Qed.

(** ** The first least gap *)

Section FirstLeast.
Context {A : Type}.
Variable g : A -> Q.
Variable d : A.

Lemma nanargmin_from_fin (l : list A) :
  forall s b m, exists i v,
    nanargmin_from s (map (fun x => Fin (g x)) l) (Some (b, m)) = Some (i, v) /\
    ((i = b /\ v = m /\
      forall j, (j < length l)%nat -> (m <= g (nth j l d))%Q) \/
     (exists k, i = (s + k)%nat /\ (k < length l)%nat /\ v = g (nth k l d) /\
                (v < m)%Q /\
                (forall j, (j < k)%nat -> (v < g (nth j l d))%Q) /\
                (forall j, (j < length l)%nat -> (v <= g (nth j l d))%Q))).
Proof.
  induction l as [|x l IH]; intros s b m.
  - exists b, m. split; [reflexivity |]. left. repeat split. simpl. intros j Hj. lia.
  - cbn [map nanargmin_from]. destruct (Qlt_bool (g x) m) eqn:Hlt.
    + apply Qlt_bool_true in Hlt.
      destruct (IH (S s) s (g x)) as (i & v & Hrun & Hcase).
      exists i, v. split; [exact Hrun |]. right.
      destruct Hcase as [(-> & -> & Hall) | (k & -> & Hk & -> & Hvm & Hbefore & Hall)].
      * exists 0%nat. repeat split; [lia | simpl; lia | exact Hlt | intros j Hj; lia |].
        intros [|j] Hj; [apply Qle_refl | simpl; apply Hall; simpl in Hj; lia].
      * exists (S k). repeat split; [lia | simpl; lia | | |].
        -- apply Qlt_trans with (g x); assumption.
        -- intros [|j] Hj; [exact Hvm | simpl; apply Hbefore; lia].
        -- intros [|j] Hj; [apply Qlt_le_weak; exact Hvm |].
           simpl. apply Hall. simpl in Hj. lia.
    + apply Qlt_bool_false in Hlt.
      destruct (IH (S s) b m) as (i & v & Hrun & Hcase).
      exists i, v. split; [exact Hrun |].
      destruct Hcase as [(-> & -> & Hall) | (k & -> & Hk & -> & Hvm & Hbefore & Hall)].
      * left. repeat split.
        intros [|j] Hj; [exact Hlt | simpl; apply Hall; simpl in Hj; lia].
      * right. exists (S k). repeat split; [lia | simpl; lia | exact Hvm | |].
        -- intros [|j] Hj; [| simpl; apply Hbefore; lia].
           simpl. apply Qlt_le_trans with m; assumption.
        -- intros [|j] Hj; [| simpl; apply Hall; simpl in Hj; lia].
           simpl. apply Qlt_le_weak. apply Qlt_le_trans with m; assumption.
Qed.

(** On an array without [nan], [np.nanargmin] returns the first index of a
    least entry. *)
Lemma nanargmin_fin (l : list A) :
  l <> [] ->
  exists i,
    nanargmin (map (fun x => Fin (g x)) l) = Return i /\
    (i < length l)%nat /\
    (forall j, (j < length l)%nat -> (g (nth i l d) <= g (nth j l d))%Q) /\
    (forall j, (j < i)%nat -> (g (nth i l d) < g (nth j l d))%Q).
Proof.
  intro Hne. destruct l as [|x l]; [contradiction |].
  unfold nanargmin. cbn [map nanargmin_from].
  destruct (nanargmin_from_fin l 1%nat 0%nat (g x)) as (i & v & Hrun & Hcase).
  rewrite Hrun. exists i. split; [reflexivity |].
  destruct Hcase as [(-> & -> & Hall) | (k & -> & Hk & -> & Hvm & Hbefore & Hall)].
  - repeat split; [simpl; lia | | intros j Hj; lia].
    intros [|j] Hj; [apply Qle_refl | simpl; apply Hall; simpl in Hj; lia].
  - change (1 + k)%nat with (S k). repeat split; [simpl; lia | |].
    + intros [|j] Hj; [simpl; apply Qlt_le_weak; exact Hvm |].
      simpl. apply Hall. simpl in Hj. lia.
    + intros [|j] Hj; [exact Hvm | simpl; apply Hbefore; lia].
Qed.

End FirstLeast.

(** ** The points of the ROC curve *)

Lemma rate_bounds (a b : Z) :
  0 <= a <= b -> 0 < b -> (0 <= inject_Z a / inject_Z b <= 1)%Q.
Proof.
  intros Hab Hb.
  assert (Hb' : (0 < inject_Z b)%Q) by (change 0%Q with (inject_Z 0); rewrite <- Zlt_Qlt; lia).
  split.
  - apply Qle_shift_div_l; [exact Hb' |]. rewrite Qmult_0_l.
    change 0%Q with (inject_Z 0). rewrite <- Zle_Qle. lia.
  - apply Qle_shift_div_r; [exact Hb' |]. rewrite Qmult_1_l.
    rewrite <- Zle_Qle. lia.
Qed.

Lemma count_combine_swap (p : Q * bool -> bool) (g : Z -> bool) (l : list Z) :
  forall s : list Q,
    count_true (map p (combine s (map g l)))
    = count_true (map2 (fun y sc => p (sc, g y)) l s).
Proof.
  unfold map2. induction l as [|y l IH]; intros [|sc s]; try reflexivity.
  cbn [map combine fst snd]. rewrite !count_true_cons, IH. reflexivity.
Qed.

Lemma count_at_or_above_ranked (c : bool) (t : Q) (y_true : list Z) (y_score : list Q) :
  count_true (map (fun p => Bool.eqb (snd p) c && Qle_bool t (fst p)) (ranked y_true y_score))
  = count_at_or_above c y_true y_score t.
Proof.
  rewrite (count_ranked (fun p => Bool.eqb (snd p) c && Qle_bool t (fst p))).
  rewrite count_combine_swap. reflexivity.
Qed.

Lemma n_pos_class (y_true : list Z) (y_score : list Q) :
  length y_true = length y_score ->
  n_pos (ranked y_true y_score) = count_class true y_true.
Proof.
  intro Hlen. rewrite n_pos_ranked by exact Hlen. unfold count_class.
  apply count_true_ext. intros y _. destruct (y =? 1); reflexivity.
Qed.

Lemma n_neg_class (y_true : list Z) (y_score : list Q) :
  length y_true = length y_score ->
  n_neg (ranked y_true y_score) = count_class false y_true.
Proof.
  intro Hlen. unfold n_neg. rewrite n_pos_ranked, length_ranked by exact Hlen.
  unfold count_class. rewrite <- count_true_negb.
  apply count_true_ext. intros y _. destruct (y =? 1); reflexivity.
Qed.

Lemma both_classes_counts (y_true : list Z) :
  In 0 y_true -> In 1 y_true ->
  0 < count_class false y_true /\ 0 < count_class true y_true.
Proof.
  intros H0 H1. unfold count_class. split.
  - apply (count_true_pos _ _ 0 H0). reflexivity.
  - apply (count_true_pos _ _ 1 H1). reflexivity.
Qed.

Lemma arrays_of_points (r : list (Q * bool)) (idxs : list nat) :
  idxs <> [] -> last idxs 0%nat = (length r - 1)%nat -> r <> [] ->
  0 < n_neg r -> 0 < n_pos r ->
  (rate_of (0 :: map (fps_at r) idxs),
   rate_of (0 :: map (tps_at r) idxs),
   None :: map Some (map (score_at r) idxs))
  = arrays_of (points_of r idxs).
Proof.
  intros Hne Hlast Hr Hn Hp.
  assert (HlastF : last_Z (0 :: map (fps_at r) idxs) = n_neg r)
    by (rewrite last_Z_counts, Hlast by exact Hne; apply fps_at_last; exact Hr).
  assert (HlastT : last_Z (0 :: map (tps_at r) idxs) = n_pos r)
    by (rewrite last_Z_counts, Hlast by exact Hne; apply tps_at_last; exact Hr).
  rewrite !rate_of_regular by lia. rewrite HlastF, HlastT.
  unfold arrays_of, points_of. cbn [map pt_fpr pt_tpr pt_threshold].
  rewrite !map_map. cbn [pt_fpr pt_tpr pt_threshold]. reflexivity.
Qed.

Lemma points_operating (y_true : list Z) (y_score : list Q) (idxs : list nat) :
  length y_true = length y_score -> y_true <> [] ->
  incl idxs (threshold_idxs (ranked y_true y_score)) ->
  Forall (operating_point y_true y_score) (points_of (ranked y_true y_score) idxs).
Proof.
  intros Hlen Hne Hincl. set (r := ranked y_true y_score) in *.
  pose proof (ranked_nonempty _ _ Hlen Hne) as Hr. fold r in Hr.
  unfold points_of. constructor.
  - unfold operating_point. cbn [pt_fpr pt_tpr pt_threshold fpr_at tpr_at].
    split; unfold Qdiv; rewrite Qmult_0_l; reflexivity.
  - apply Forall_forall. intros p Hp. apply in_map_iff in Hp.
    destruct Hp as (i & <- & Hi).
    destruct (counts_at_threshold r i (ranked_descending _ _) Hr (Hincl i Hi))
      as [HT HF].
    unfold operating_point. cbn [pt_fpr pt_tpr pt_threshold fpr_at tpr_at].
    rewrite HT, HF. unfold r.
    rewrite (n_neg_class _ _ Hlen), (n_pos_class _ _ Hlen).
    rewrite <- !count_at_or_above_ranked.
    rewrite (count_true_ext
               (fun p => negb (snd p) && Qle_bool (score_at (ranked y_true y_score) i) (fst p))
               (fun p => Bool.eqb (snd p) false
                         && Qle_bool (score_at (ranked y_true y_score) i) (fst p)))
      by (intros [s b] _; destruct b; reflexivity).
    rewrite (count_true_ext
               (fun p => snd p && Qle_bool (score_at (ranked y_true y_score) i) (fst p))
               (fun p => Bool.eqb (snd p) true
                         && Qle_bool (score_at (ranked y_true y_score) i) (fst p)))
      by (intros [s b] _; destruct b; reflexivity).
    split; reflexivity.
Qed.

Lemma points_bounds (r : list (Q * bool)) (idxs : list nat) :
  Forall (fun i => (i < length r)%nat) idxs -> 0 < n_neg r -> 0 < n_pos r ->
  Forall (fun p => (0 <= pt_fpr p <= 1)%Q /\ (0 <= pt_tpr p <= 1)%Q) (points_of r idxs).
Proof.
  intros Hb Hn Hp. unfold points_of. constructor.
  - cbn [pt_fpr pt_tpr]. split; apply rate_bounds; lia.
  - apply Forall_forall. intros p Hin. apply in_map_iff in Hin.
    destruct Hin as (i & <- & Hi). rewrite Forall_forall in Hb.
    cbn [pt_fpr pt_tpr]. split; apply rate_bounds; try lia.
    + apply fps_at_bounds. apply Hb. exact Hi.
    + apply tps_at_bounds. apply Hb. exact Hi.
Qed.

Lemma points_thresholds_decrease (r : list (Q * bool)) (idxs : list nat) :
  descending r -> StronglySorted lt idxs ->
  Forall (fun i => (i < length r)%nat) idxs ->
  incl idxs (threshold_idxs r) ->
  forall j k, (j < k < length (points_of r idxs))%nat ->
    threshold_below (pt_threshold (nth k (points_of r idxs) no_point))
                    (pt_threshold (nth j (points_of r idxs) no_point)).
Proof.
  intros Hd Hs Hb Hincl j k Hjk. unfold points_of in *.
  cbn [length] in Hjk. rewrite length_map in Hjk.
  destruct k as [|k]; [lia |]. cbn [nth].
  set (mk := fun i => mkPoint (Some (score_at r i))
                              (inject_Z (fps_at r i) / inject_Z (n_neg r))
                              (inject_Z (tps_at r i) / inject_Z (n_pos r))).
  assert (Hnth : forall m, (m < length idxs)%nat ->
                           nth m (map mk idxs) no_point = mk (nth m idxs 0%nat)).
  { intros m Hm. rewrite (nth_indep _ no_point (mk 0%nat)) by (rewrite length_map; exact Hm).
    apply map_nth. }
  rewrite Hnth by lia. destruct j as [|j]; [exact I |].
  cbn [nth]. rewrite Hnth by lia. cbn [mk pt_threshold threshold_below].
  apply threshold_drop; [exact Hd | apply Hincl, nth_In; lia |].
  split; [apply sorted_nth_lt; [exact Hs | lia] |].
  rewrite Forall_forall in Hb. apply Hb, nth_In. lia.
Qed.

(** For labels in {0,1} with both classes and scores of the same length,
    [roc_curve] returns a non-empty list of operating points, by strictly
    decreasing threshold, with rates in [0,1]. *)
Lemma roc_curve_points (y_true : list Z) (y_score : list Q) :
  length y_true = length y_score -> binary_labels y_true ->
  In 0 y_true -> In 1 y_true ->
  exists pts,
    pts <> [] /\
    roc_curve y_true y_score = Return (arrays_of pts) /\
    pt_threshold (nth 0 pts no_point) = None /\
    Forall (operating_point y_true y_score) pts /\
    (forall j k, (j < k < length pts)%nat ->
       threshold_below (pt_threshold (nth k pts no_point))
                       (pt_threshold (nth j pts no_point))) /\
    Forall (fun p => (0 <= pt_fpr p <= 1)%Q /\ (0 <= pt_tpr p <= 1)%Q) pts.
Proof.
  intros Hlen Hbin H0 H1.
  assert (Hne : y_true <> []) by (destruct y_true; [contradiction | discriminate]).
  destruct (roc_curve_eq _ _ Hlen Hbin Hne) as (idxs & Hs & Hincl & Hroc).
  pose proof (ranked_nonempty _ _ Hlen Hne) as Hr.
  destruct (both_classes_counts _ H0 H1) as [Hn Hp].
  rewrite <- (n_neg_class _ _ Hlen) in Hn. rewrite <- (n_pos_class _ _ Hlen) in Hp.
  assert (Hpos : (0 < length (ranked y_true y_score))%nat)
    by (destruct (ranked y_true y_score); [contradiction | simpl; lia]).
  pose proof (sampled_bound _ _ Hpos Hs) as Hb.
  destruct Hs as (Hi & Hsorted & Hlast).
  exists (points_of (ranked y_true y_score) idxs).
  split; [discriminate | split; [| split; [reflexivity | split; [| split]]]].
  - rewrite Hroc. f_equal. apply arrays_of_points; assumption.
  - apply points_operating; assumption.
  - apply points_thresholds_decrease; try assumption. apply ranked_descending.
  - apply points_bounds; assumption.
Qed.

(** ** The equal error rate *)

Lemma gaps_of_points (pts : list roc_point) :
  map np_abs
      (map2 np_sub (map (np_sub (Fin 1)) (map (fun p => Fin (pt_tpr p)) pts))
                   (map (fun p => Fin (pt_fpr p)) pts))
  = map (fun p => Fin (pt_gap p)) pts.
Proof.
  unfold map2. induction pts as [|p pts IH]; [reflexivity |].
  cbn [map combine fst snd]. rewrite IH. reflexivity.
Qed.

Lemma nth_points {B : Type} (h : roc_point -> B) (pts : list roc_point)
  (i : nat) (d : B) :
  (i < length pts)%nat -> nth i (map h pts) d = h (nth i pts no_point).
Proof.
  intro Hi. rewrite (nth_indep _ d (h no_point)) by (rewrite length_map; exact Hi).
  apply map_nth.
Qed.

(** On a curve of points [calculate_eer] returns the mean of FPR and FNR at
    the first point of least gap. *)
Lemma calculate_eer_points (y_true : list Z) (y_score : list Q) (pts : list roc_point) :
  pts <> [] ->
  roc_curve y_true y_score = Return (arrays_of pts) ->
  exists i,
    (i < length pts)%nat /\
    (forall j, (j < length pts)%nat ->
               (pt_gap (nth i pts no_point) <= pt_gap (nth j pts no_point))%Q) /\
    (forall j, (j < i)%nat ->
               (pt_gap (nth i pts no_point) < pt_gap (nth j pts no_point))%Q) /\
    calculate_eer y_true y_score = Return (Fin (pt_mean (nth i pts no_point))).
Proof.
  intros Hne Hroc.
  destruct (nanargmin_fin pt_gap no_point pts Hne) as (i & Hrun & Hi & Hall & Hbefore).
  exists i. split; [exact Hi | split; [exact Hall | split; [exact Hbefore |]]].
  unfold calculate_eer. rewrite Hroc. unfold arrays_of. cbn [bind].
  rewrite gaps_of_points, Hrun. cbn [bind].
  rewrite map_map. rewrite !nth_points by exact Hi. reflexivity.
Qed.

Lemma mean_bounds (p : roc_point) :
  (0 <= pt_fpr p <= 1)%Q /\ (0 <= pt_tpr p <= 1)%Q -> (0 <= pt_mean p <= 1)%Q.
Proof.
  unfold pt_mean. intros [[H1 H2] [H3 H4]]. split.
  - apply Qle_shift_div_l; [reflexivity | lra].
  - apply Qle_shift_div_r; [reflexivity | lra].
Qed.




(** ** Strictly increasing transforms of the scores *)

Section Monotone.
Variable f : Q -> Q.
Hypothesis f_increasing : strictly_increasing f.

Lemma increasing_le (a b : Q) : Qle_bool (f a) (f b) = Qle_bool a b.
Proof.
  destruct f_increasing as [Hproper Hlt].
  destruct (Qle_bool a b) eqn:Hab.
  - apply Qle_bool_iff. apply Qle_bool_iff in Hab.
    destruct (proj1 (Qle_lteq _ _) Hab) as [H | H].
    + apply Qlt_le_weak, Hlt, H.
    + rewrite (Hproper _ _ H). apply Qle_refl.
  - apply negb_true_iff. apply (proj2 (Qgt_bool_true (f a) (f b))).
    apply Hlt. apply (proj1 (Qgt_bool_true a b)).
    unfold Qgt_bool. rewrite Hab. reflexivity.
Qed.

Lemma increasing_diff (a b : Q) :
  Qeq_bool (f b - f a) 0 = Qeq_bool (b - a) 0.
Proof.
  destruct f_increasing as [Hproper Hlt].
  destruct (Qeq_bool (b - a) 0) eqn:Hab.
  - apply Qeq_bool_iff. apply Qeq_bool_iff in Hab.
    assert (Heq : (b == a)%Q) by lra. rewrite (Hproper _ _ Heq). ring.
  - apply not_true_is_false. intro H. apply Qeq_bool_iff in H.
    apply Qeq_bool_neq in Hab. apply Hab.
    destruct (Q_dec a b) as [[Hl | Hg] | He].
    + apply Hlt in Hl. lra.
    + apply Hlt in Hg. lra.
    + lra.
Qed.

Lemma insert_on_score (x : Q * bool) (l : list (Q * bool)) :
  insert_by_score (on_score f x) (map (on_score f) l)
  = map (on_score f) (insert_by_score x l).
Proof.
  induction l as [|y l IH]; [reflexivity |].
  cbn [map insert_by_score].
  change (fst (on_score f x)) with (f (fst x)).
  change (fst (on_score f y)) with (f (fst y)).
  rewrite increasing_le. destruct (Qle_bool (fst x) (fst y)); [reflexivity |].
  cbn [map]. rewrite <- IH. reflexivity.
Qed.

Lemma sort_on_score (l : list (Q * bool)) :
  stable_sort_by_score (map (on_score f) l)
  = map (on_score f) (stable_sort_by_score l).
Proof.
  induction l as [|x l IH]; [reflexivity |].
  cbn [map stable_sort_by_score]. rewrite IH. apply insert_on_score.
Qed.

Lemma combine_on_score (s : list Q) :
  forall b : list bool, combine (map f s) b = map (on_score f) (combine s b).
Proof.
  induction s as [|x s IH]; intros [|y b]; try reflexivity.
  cbn [map combine]. rewrite IH. reflexivity.
Qed.

Lemma nonzero_diff_increasing (l : list Q) :
  nonzero_Q (np_diff_Q (map f l)) = nonzero_Q (np_diff_Q l).
Proof.
  induction l as [|x [|y rest] IH]; [reflexivity | reflexivity |].
  change (np_diff_Q (map f (x :: y :: rest)))
    with ((f y - f x)%Q :: np_diff_Q (map f (y :: rest))).
  change (np_diff_Q (x :: y :: rest)) with ((y - x)%Q :: np_diff_Q (y :: rest)).
  unfold nonzero_Q in *. cbn [map]. rewrite increasing_diff.
  f_equal. exact IH.
Qed.

Lemma binary_clf_counts_increasing (y_true : list Z) (y_score : list Q) :
  without_thresholds (binary_clf_curve y_true (map f y_score))
  = without_thresholds (binary_clf_curve y_true y_score).
Proof.
  unfold binary_clf_curve.
  replace (check_consistent_length y_true (map f y_score))
    with (check_consistent_length y_true y_score)
    by (unfold check_consistent_length; rewrite length_map; reflexivity).
  destruct (check_consistent_length y_true y_score); [| reflexivity].
  cbn [bind]. destruct (check_pos_label_consistency y_true) as [pos|]; [| reflexivity].
  cbn [bind]. cbv zeta.
  rewrite combine_on_score, sort_on_score, <- map_rev.
  set (r := rev (stable_sort_by_score (combine y_score (map (fun y => y =? pos) y_true)))).
  assert (Hsnd : map snd (map (on_score f) r) = map snd r)
    by (rewrite map_map; reflexivity).
  assert (Hfst : map fst (map (on_score f) r) = map f (map fst r))
    by (rewrite !map_map; reflexivity).
  rewrite Hsnd, Hfst, nonzero_diff_increasing. reflexivity.
Qed.

Lemma roc_rates_increasing (y_true : list Z) (y_score : list Q) :
  without_thresholds (roc_curve y_true (map f y_score))
  = without_thresholds (roc_curve y_true y_score).
Proof.
  pose proof (binary_clf_counts_increasing y_true y_score) as H.
  unfold roc_curve.
  destruct (binary_clf_curve y_true (map f y_score)) as [[[fps tps] thr]|e];
    destruct (binary_clf_curve y_true y_score) as [[[fps' tps'] thr']|e'];
    cbn in H; try discriminate.
  - injection H as -> ->. cbn [bind].
    destruct (2 <? length fps')%nat; reflexivity.
  - injection H as ->. reflexivity.
Qed.

Lemma calculate_eer_rates (y_true : list Z) (y_score : list Q) :
  calculate_eer y_true y_score
  = (rates <- without_thresholds (roc_curve y_true y_score) ;;
     let fnr := map (np_sub (Fin 1)) (snd rates) in
     eer_threshold_index <- nanargmin (map np_abs (map2 np_sub fnr (fst rates))) ;;
     Return (np_half (np_add (nth eer_threshold_index (fst rates) NaN)
                             (nth eer_threshold_index fnr NaN)))).
Proof.
  unfold calculate_eer, without_thresholds.
  destruct (roc_curve y_true y_score) as [[[fpr tpr] thr]|e]; reflexivity.
Qed.

(** [calculate_eer] gives the same outcome on strictly increasingly
    transformed scores, whatever the input. *)
Lemma calculate_eer_increasing (y_true : list Z) (y_score : list Q) :
  calculate_eer y_true (map f y_score) = calculate_eer y_true y_score.
Proof.
  rewrite !calculate_eer_rates, roc_rates_increasing. reflexivity.
Qed.

End Monotone.

Lemma calculate_eer_returns (labels : list Z) (scores : list Q) :
  length labels = length scores -> binary_labels labels ->
  In 0 labels -> In 1 labels ->
  exists e, calculate_eer labels scores = Return (Fin e) /\ (0 <= e <= 1)%Q.
Proof.
  intros Hlen Hbin H0 H1.
  destruct (roc_curve_points _ _ Hlen Hbin H0 H1) as (pts & Hne & Hroc & _ & _ & _ & Hb).
  destruct (calculate_eer_points _ _ pts Hne Hroc) as (i & Hi & _ & _ & Heer).
  exists (pt_mean (nth i pts no_point)). split; [exact Heer |].
  apply mean_bounds. rewrite Forall_forall in Hb. apply Hb, nth_In, Hi.
Qed.

(** C8. For same-length labels (in {0,1}, both classes present) and scores,
    and every strictly increasing function [f], [calculate_eer] returns on
    the scores transformed by [f] the very value it returns on the scores;
    scaling by a positive constant is such a function. *)
Theorem C8_monotone_invariance (labels : list Z) (scores : list Q) (f : Q -> Q) :
  length labels = length scores -> binary_labels labels ->
  In 0 labels -> In 1 labels ->
  strictly_increasing f ->
  (exists e, calculate_eer labels scores = Return (Fin e) /\
             calculate_eer labels (map f scores) = Return (Fin e)) /\
  (forall c : Q, (0 < c)%Q -> strictly_increasing (fun x => c * x)%Q).
Proof.
  intros Hlen Hbin H0 H1 Hf. split.
  - destruct (calculate_eer_returns _ _ Hlen Hbin H0 H1) as (e & He & _).
    exists e. split; [exact He |].
    rewrite (calculate_eer_increasing f Hf). exact He.
  - intros c Hc. split.
    + intros a b Hab. rewrite Hab. reflexivity.
    + intros a b Hab. apply Qmult_lt_l; assumption.
Qed.

Lemma C8_monotone_invariance_witness :
  let labels := [0; 1; 1; 0; 1] in
  let scores := [2 # 10; 7 # 10; 4 # 10; 5 # 10; 9 # 10]%Q in
  exists e, calculate_eer labels scores = Return (Fin e) /\
            calculate_eer labels (map (fun x => 3 * x + 1)%Q scores) = Return (Fin e).
Proof.
  cbv zeta.
  assert (Hbin : binary_labels [0; 1; 1; 0; 1]).
  { unfold binary_labels. repeat (apply Forall_cons; [lia |]). apply Forall_nil. }
  assert (H0 : In 0 [0; 1; 1; 0; 1]) by (left; reflexivity).
  assert (H1 : In 1 [0; 1; 1; 0; 1]) by (right; left; reflexivity).
  assert (Hf : strictly_increasing (fun x => 3 * x + 1)%Q).
  { split.
    - intros a b Hab. rewrite Hab. reflexivity.
    - intros a b Hab. lra. }
  exact (proj1 (C8_monotone_invariance [0; 1; 1; 0; 1]
                  [2 # 10; 7 # 10; 4 # 10; 5 # 10; 9 # 10]%Q
                  (fun x => 3 * x + 1)%Q eq_refl Hbin H0 H1 Hf)).
Defined.

(** ** Scenarios of the specification *)

Example scenario_separable :
  calculate_metrics [0; 0; 1; 1] [1 # 10; 4 # 10; 6 # 10; 9 # 10]%Q
  = Return (Fin (4 # 4), Fin (2 # 2), Fin (4 # 4)) /\
  calculate_eer [0; 0; 1; 1] [1 # 10; 4 # 10; 6 # 10; 9 # 10]%Q = Return (Fin (0 # 8)).
Proof. split; reflexivity. Qed.

Example scenario_maximally_wrong :
  calculate_metrics [0; 1] [9 # 10; 1 # 10]%Q = Return (Fin (0 # 2), Fin 0, Fin (0 # 2)) /\
  calculate_eer [0; 1] [9 # 10; 1 # 10]%Q = Return (Fin (2 # 2)).
Proof. split; reflexivity. Qed.

Example scenario_trial_losses :
  let t (n : Z) (l : Q) := finished_trial n l "p" in
  let g1 := save_best_model_callback main_globals (t 1 (5 # 10)%Q) in
  let g2 := g <- g1 ;; save_best_model_callback g (t 2 (3 # 10)%Q) in
  let g3 := g <- g2 ;; save_best_model_callback g (t 3 (4 # 10)%Q) in
  let g4 := g <- g3 ;; save_best_model_callback g (t 4 (2 # 10)%Q) in
  g3 = g2 /\ g2 <> g1 /\ g4 <> g3 /\
  g4 = Return (mkSelection (Some "p"%string) (2 # 10)%Q (Some "p"%string)).
Proof. cbv zeta. repeat split; vm_compute; discriminate. Qed.

Example scenario_stops_at_patience :
  map early_stop
      (map (EarlyStopping_calls (EarlyStopping_init 2 0))
           [[1%Q]; [1%Q; 2%Q]; [1%Q; 2%Q; 2%Q]])
  = [false; false; true].
Proof. reflexivity. Qed.

(** * Further properties *)

(** ** The monitor over whole runs *)

Lemma delta_call (s : EarlyStopping) (v : Q) :
  delta (EarlyStopping_call s v) = delta s.
Proof.
  unfold EarlyStopping_call. destruct (best_loss s) as [b|]; [| reflexivity].
  destruct (Qgt_bool v (b - delta s)); simpl; [| reflexivity].
  destruct (counter s + 1 >=? patience s); reflexivity.
Qed.

Lemma best_loss_call_le (s : EarlyStopping) (v b : Q) :
  (0 <= delta s)%Q -> best_loss s = Some b ->
  exists b', best_loss (EarlyStopping_call s v) = Some b' /\ (b' <= b)%Q.
Proof.
  intros Hd Hb. unfold EarlyStopping_call. rewrite Hb.
  destruct (Qgt_bool v (b - delta s)) eqn:Hgt; simpl.
  - exists b. split; [| apply Qle_refl].
    destruct (counter s + 1 >=? patience s); simpl; exact Hb.
  - exists v. split; [reflexivity |].
    apply Qgt_bool_false in Hgt. lra.
Qed.

(** X1. With a non-negative margin the recorded best loss never goes up and,
    once recorded, is never forgotten, whatever losses follow. *)
Theorem best_loss_never_increases (losses : list Q) :
  forall (s : EarlyStopping) (b : Q),
    (0 <= delta s)%Q -> best_loss s = Some b ->
    exists b', best_loss (EarlyStopping_calls s losses) = Some b' /\ (b' <= b)%Q.
Proof.
  induction losses as [|v rest IH]; intros s b Hd Hb; simpl.
  - exists b. split; [exact Hb | apply Qle_refl].
  - destruct (best_loss_call_le s v b Hd Hb) as (b1 & Hb1 & Hle1).
    destruct (IH (EarlyStopping_call s v) b1) as (b' & Hb' & Hle');
      [rewrite delta_call; exact Hd | exact Hb1 |].
    exists b'. split; [exact Hb' | apply Qle_trans with b1; assumption].
Qed.

Lemma best_loss_never_increases_witness :
  exists b', best_loss (EarlyStopping_calls (mkEarlyStopping 4 0 (Some 1%Q) 0 false)
                          [2%Q; (1 # 2)%Q; 3%Q]) = Some b' /\ (b' <= 1)%Q.
Proof.
  apply (best_loss_never_increases [2%Q; (1 # 2)%Q; 3%Q]
           (mkEarlyStopping 4 0 (Some 1%Q) 0 false) 1%Q).
  - simpl. apply Qle_refl.
  - reflexivity.
Defined.

Lemma last_cons_indep {A : Type} (l : list A) (x d d' : A) :
  last (x :: l) d = last (x :: l) d'.
Proof.
  revert x. induction l as [|y l IH]; intro x; [reflexivity |].
  change (last (x :: y :: l) d) with (last (y :: l) d).
  change (last (x :: y :: l) d') with (last (y :: l) d'). apply IH.
Qed.

Lemma decreasing_run (losses : list Q) :
  forall (p : Z) (d b : Q),
    (d <= 0)%Q -> decreasing_below b losses ->
    EarlyStopping_calls (mkEarlyStopping p d (Some b) 0 false) losses
    = mkEarlyStopping p d (Some (last losses b)) 0 false.
Proof.
  induction losses as [|v rest IH]; intros p d b Hd Hdec; [reflexivity |].
  destruct Hdec as [Hv Hrest].
  assert (Hcall : EarlyStopping_call (mkEarlyStopping p d (Some b) 0 false) v
                  = mkEarlyStopping p d (Some v) 0 false).
  { unfold EarlyStopping_call. cbn [best_loss delta].
    replace (Qgt_bool v (b - d)) with false; [reflexivity |].
    symmetry. apply Qgt_bool_false. lra. }
  change (EarlyStopping_calls (mkEarlyStopping p d (Some b) 0 false) (v :: rest))
    with (EarlyStopping_calls
            (EarlyStopping_call (mkEarlyStopping p d (Some b) 0 false) v) rest).
  rewrite Hcall, (IH p d v Hd Hrest).
  destruct rest as [|q rest]; [reflexivity |].
  change (last (v :: q :: rest) b) with (last (q :: rest) b).
  rewrite (last_cons_indep rest q v b). reflexivity.
Qed.

(** X2. A monitor with margin 0 (or a negative one) fed a strictly
    decreasing sequence of losses never stops: the flag stays down, the
    counter stays 0 and the best loss is the last loss fed. *)
Theorem strictly_decreasing_never_stops (p : Z) (d : Q) (losses : list Q) :
  (d <= 0)%Q -> strictly_decreasing losses -> losses <> [] ->
  EarlyStopping_calls (EarlyStopping_init p d) losses
  = mkEarlyStopping p d (Some (last losses 0%Q)) 0 false.
Proof.
  intros Hd Hdec Hne. destruct losses as [|v rest]; [contradiction |].
  change (EarlyStopping_calls (EarlyStopping_init p d) (v :: rest))
    with (EarlyStopping_calls (mkEarlyStopping p d (Some v) 0 false) rest).
  rewrite (decreasing_run rest p d v Hd Hdec).
  destruct rest as [|q rest]; [reflexivity |].
  change (last (v :: q :: rest) 0%Q) with (last (q :: rest) 0%Q).
  rewrite (last_cons_indep rest q v 0%Q). reflexivity.
Qed.

Lemma strictly_decreasing_never_stops_witness :
  EarlyStopping_calls (EarlyStopping_init 1 0) [3%Q; 2%Q; 1%Q]
  = mkEarlyStopping 1 0 (Some 1%Q) 0 false.
Proof.
  apply (strictly_decreasing_never_stops 1 0 [3%Q; 2%Q; 1%Q]).
  - apply Qle_refl.
  - simpl. repeat split; reflexivity.
  - discriminate.
Defined.




(** ** The epoch loop: when it stops *)

Lemma objective_epochs_tracking (rest : list Q) :
  forall (p : Z) (d : Q) (l0 : list Q) (m : Q) (l2 : list Q) (e : nat)
         (s : EarlyStopping) (n : nat),
    1 <= p -> Z.of_nat (length l2) < p ->
    Forall (fun v => (m - d < v)%Q) l2 ->
    objective_epochs (mkEarlyStopping p d (Some m) (Z.of_nat (length l2)) false) rest e
    = (s, n) ->
    (early_stop s = false /\ n = (e + length rest)%nat) \/
    (early_stop s = true /\
     exists k l0' m' l2',
       n = (e + k)%nat /\ (k <= length rest)%nat /\
       (l0 ++ m :: l2) ++ firstn k rest = l0' ++ m' :: l2' /\
       Z.of_nat (length l2') = p /\ best_loss s = Some m' /\
       Forall (fun v => (m' - d < v)%Q) l2').
Proof.
  induction rest as [|v rest IH]; intros p d l0 m l2 e s n Hp Hc Hall Hrun.
  - simpl in Hrun. injection Hrun as <- <-. left. split; [reflexivity | simpl; lia].
  - cbn [objective_epochs] in Hrun. unfold EarlyStopping_call in Hrun.
    cbn [best_loss delta] in Hrun.
    destruct (Qgt_bool v (m - d)) eqn:Hgt.
    + apply Qgt_bool_true in Hgt.
      cbn [set_counter counter patience] in Hrun. rewrite Z.geb_leb in Hrun.
      destruct (p <=? Z.of_nat (length l2) + 1) eqn:Hge.
      * cbn [set_early_stop early_stop] in Hrun. injection Hrun as <- <-.
        apply Z.leb_le in Hge. right. split; [reflexivity |].
        exists 1%nat, l0, m, (l2 ++ [v]).
        repeat split; [lia | simpl; lia | | | ].
        -- simpl. rewrite <- app_assoc. reflexivity.
        -- rewrite length_app. simpl. lia.
        -- apply Forall_app. split; [exact Hall | constructor; [exact Hgt | constructor]].
      * cbn [early_stop] in Hrun. apply Z.leb_gt in Hge.
        replace (Z.of_nat (length l2) + 1) with (Z.of_nat (length (l2 ++ [v]))) in Hrun
          by (rewrite length_app; simpl; lia).
        destruct (IH p d l0 m (l2 ++ [v]) (S e) s n Hp) as [[Hf Hn] | [Hf Hex]];
          [rewrite length_app; simpl; lia
          | apply Forall_app; split; [exact Hall | constructor; [exact Hgt | constructor]]
          | exact Hrun | |].
        -- left. split; [exact Hf | simpl; lia].
        -- right. split; [exact Hf |].
           destruct Hex as (k & l0' & m' & l2' & Hn & Hk & Hl & Hlen & Hb & Hall').
           exists (S k), l0', m', l2'.
           repeat split; [lia | simpl; lia | | exact Hlen | exact Hb | exact Hall'].
           rewrite <- Hl. cbn [firstn]. rewrite <- !app_assoc. simpl.
           rewrite <- app_assoc. reflexivity.
    + cbn [set_counter set_best_loss early_stop patience delta best_loss counter] in Hrun.
      destruct (IH p d (l0 ++ m :: l2) v [] (S e) s n Hp) as [[Hf Hn] | [Hf Hex]];
        [simpl; lia | constructor | exact Hrun | |].
      * left. split; [exact Hf | simpl; lia].
      * right. split; [exact Hf |].
        destruct Hex as (k & l0' & m' & l2' & Hn & Hk & Hl & Hlen & Hb & Hall').
        exists (S k), l0', m', l2'.
        repeat split; [lia | simpl; lia | | exact Hlen | exact Hb | exact Hall'].
        rewrite <- Hl. cbn [firstn]. rewrite <- (app_assoc (l0 ++ m :: l2) [v]).
        reflexivity.
Qed.

Lemma objective_epochs_stop (p : Z) (d : Q) (losses : list Q)
  (s : EarlyStopping) (n : nat) :
  1 <= p ->
  objective_epochs (EarlyStopping_init p d) losses 0 = (s, n) ->
  (early_stop s = false /\ n = length losses) \/
  (early_stop s = true /\ p + 1 <= Z.of_nat n /\
   exists l0 m l2,
     firstn n losses = l0 ++ m :: l2 /\ Z.of_nat (length l2) = p /\
     best_loss s = Some m /\ Forall (fun v => (m - d < v)%Q) l2).
Proof.
  intros Hp Hrun. destruct losses as [|v rest].
  - simpl in Hrun. injection Hrun as <- <-. left. split; reflexivity.
  - cbn [objective_epochs] in Hrun.
    change (EarlyStopping_call (EarlyStopping_init p d) v)
      with (mkEarlyStopping p d (Some v) (Z.of_nat (@length Q [])) false) in Hrun.
    cbn [early_stop] in Hrun.
    destruct (objective_epochs_tracking rest p d [] v [] 1 s n Hp
                ltac:(simpl; lia) ltac:(constructor) Hrun) as [[Hf Hn] | [Hf Hex]].
    + left. split; [exact Hf | simpl; lia].
    + right. split; [exact Hf |].
      destruct Hex as (k & l0 & m & l2 & Hn & Hk & Hl & Hlen & Hb & Hall).
      assert (Hfirst : firstn n (v :: rest) = l0 ++ m :: l2)
        by (rewrite Hn; simpl; simpl in Hl; exact Hl).
      split.
      * apply (f_equal (@length Q)) in Hfirst.
        rewrite length_firstn, length_app in Hfirst. simpl in Hfirst. lia.
      * exists l0, m, l2. repeat split; assumption.
Qed.

(** X4. The epoch loop with a monitor of patience [p >= 1] either runs every
    epoch and ends with the flag down, or breaks with the flag up after [n]
    epochs, and then: [n >= p + 1], the last [p] losses each failed to beat
    the recorded best loss by the margin, and that best loss is the loss of
    the epoch just before them. *)
Theorem early_stop_means_stagnation (p : Z) (d : Q) (losses : list Q)
  (s : EarlyStopping) (n : nat) :
  1 <= p ->
  objective_epochs (EarlyStopping_init p d) losses 0 = (s, n) ->
  (early_stop s = false /\ n = length losses) \/
  (early_stop s = true /\ p + 1 <= Z.of_nat n /\
   exists l0 m l2,
     firstn n losses = l0 ++ m :: l2 /\ Z.of_nat (length l2) = p /\
     best_loss s = Some m /\ Forall (fun v => (m - d < v)%Q) l2).
Proof. exact (objective_epochs_stop p d losses s n). Qed.

Lemma early_stop_means_stagnation_witness :
  exists l0 m l2,
    firstn 4 [3%Q; 1%Q; 2%Q; 2%Q; 0%Q] = l0 ++ m :: l2 /\
    Z.of_nat (length l2) = 2 /\ Forall (fun v => (m - 0 < v)%Q) l2.
Proof.
  destruct (early_stop_means_stagnation 2 0 [3%Q; 1%Q; 2%Q; 2%Q; 0%Q]
              (mkEarlyStopping 2 0 (Some 1%Q) 2 true) 4 ltac:(lia) eq_refl)
    as [[Hf _] | (_ & _ & l0 & m & l2 & H1 & H2 & _ & H4)].
  - discriminate Hf.
  - exists l0, m, l2. repeat split; assumption.
Defined.

(** ** The epoch loop: what it returns *)










Lemma app_inv_prefix (p s1 s2 : string) :
  (p ++ s1)%string = (p ++ s2)%string -> s1 = s2.
Proof.
  induction p as [|c p IH]; simpl; intro H; [exact H |].
  injection H as H. apply IH. exact H.
Qed.

Lemma append_length (s1 s2 : string) :
  String.length (s1 ++ s2)%string = (String.length s1 + String.length s2)%nat.
Proof.
  induction s1 as [|c s1 IH]; simpl; [reflexivity |]. rewrite IH. reflexivity.
Qed.

Lemma app_inv_suffix (t : string) :
  forall s1 s2 : string, (s1 ++ t)%string = (s2 ++ t)%string -> s1 = s2.
Proof.
  induction s1 as [|c s1 IH]; intros [|c' s2] H.
  - reflexivity.
  - apply (f_equal String.length) in H. simpl in H. rewrite append_length in H. lia.
  - apply (f_equal String.length) in H. simpl in H. rewrite append_length in H. lia.
  - simpl in H. injection H as -> H. f_equal. apply IH. exact H.
Qed.

Lemma str_of_int_inj (n m : Z) : str_of_int n = str_of_int m -> n = m.
Proof.
  unfold str_of_int. intro H. apply DecimalZ.to_int_inj.
  pose proof (DecimalString.NilEmpty.isi (Z.to_int n)) as Hn.
  pose proof (DecimalString.NilEmpty.isi (Z.to_int m)) as Hm.
  rewrite H in Hn. rewrite Hn in Hm. injection Hm as Hm. exact Hm.
Qed.

(** X6. Trials of different numbers write their checkpoints to different
    files: the path of a trial determines its number. *)
Theorem tmp_model_path_injective (n m : Z) :
  tmp_model_path n = tmp_model_path m -> n = m.
Proof.
  unfold tmp_model_path. intro H.
  apply app_inv_prefix in H. apply app_inv_suffix in H.
  apply str_of_int_inj. exact H.
Qed.

Lemma tmp_model_path_injective_witness :
  tmp_model_path 3 = "checkpoints/tmp_model_trial_3.pth"%string /\ 3 = 3.
Proof.
  split; [reflexivity |].
  exact (tmp_model_path_injective 3 3 eq_refl).
Defined.

(** ** The callback over a whole search *)

Lemma optimize_first_least (ts : list (Z * Q * string)) :
  forall g, exists g',
    optimize_callbacks g (map trial_of ts) = Return g' /\
    ((g' = g /\ forall t, In t ts -> (best_validation_loss g <= loss_of t)%Q) \/
     (exists l1 t l2,
        ts = l1 ++ t :: l2 /\ g' = replaced_by t /\
        (loss_of t < best_validation_loss g)%Q /\
        (forall u, In u l1 -> (loss_of t < loss_of u)%Q) /\
        (forall u, In u l2 -> (loss_of t <= loss_of u)%Q))).
Proof.
  induction ts as [|t rest IH]; intro g.
  - exists g. split; [reflexivity |]. left. split; [reflexivity | intros t []].
  - cbn [map optimize_callbacks]. rewrite callback_finished. cbn [bind].
    destruct (Qlt_bool (loss_of t) (best_validation_loss g)) eqn:Hlt.
    + apply Qlt_bool_true in Hlt.
      destruct (IH (replaced_by t)) as (g' & Hrun & Hcase).
      exists g'. split; [exact Hrun |]. right.
      destruct Hcase as [[-> Hall] | (l1 & t' & l2 & -> & -> & Hlt' & Hbefore & Hafter)].
      * exists [], t, rest. repeat split; [exact Hlt | intros u [] | exact Hall].
      * cbn [replaced_by best_validation_loss] in Hlt'.
        exists (t :: l1), t', l2. repeat split.
        -- apply Qlt_trans with (loss_of t); assumption.
        -- intros u [<- | Hu]; [exact Hlt' | apply Hbefore, Hu].
        -- exact Hafter.
    + apply Qlt_bool_false in Hlt.
      destruct (IH g) as (g' & Hrun & Hcase).
      exists g'. split; [exact Hrun |].
      destruct Hcase as [[-> Hall] | (l1 & t' & l2 & -> & -> & Hlt' & Hbefore & Hafter)].
      * left. split; [reflexivity |].
        intros u [<- | Hu]; [exact Hlt | apply Hall, Hu].
      * right. exists (t :: l1), t', l2. repeat split.
        -- exact Hlt'.
        -- intros u [<- | Hu]; [| apply Hbefore, Hu].
           apply Qlt_le_trans with (best_validation_loss g); assumption.
        -- exact Hafter.
Qed.

(** X8. After a search over finished trials the record, when one was made,
    is that of the first trial that attains the least loss: every earlier
    trial has a strictly greater loss and every later one a loss at least as
    great; a later trial that only ties the best does not replace it. *)
Theorem earliest_least_trial_is_kept (ts : list (Z * Q * string)) (g' : Selection) :
  optimize_callbacks main_globals (map trial_of ts) = Return g' ->
  g' <> main_globals ->
  exists l1 t l2,
    ts = l1 ++ t :: l2 /\ g' = replaced_by t /\
    (loss_of t < 1000000)%Q /\
    (forall u, In u l1 -> (loss_of t < loss_of u)%Q) /\
    (forall u, In u l2 -> (loss_of t <= loss_of u)%Q).
Proof.
  intros Hrun Hne.
  destruct (optimize_first_least ts main_globals) as (g1 & Hrun1 & Hcase).
  rewrite Hrun in Hrun1. injection Hrun1 as <-.
  destruct Hcase as [[Heq _] | Hex]; [contradiction | exact Hex].
Qed.

Lemma earliest_least_trial_is_kept_witness :
  exists l1 t l2,
    [(0, (3 # 10)%Q, "a"%string); (1, (2 # 10)%Q, "b"%string);
     (2, (2 # 10)%Q, "c"%string)] = l1 ++ t :: l2 /\
    replaced_by (1, (2 # 10)%Q, "b"%string) = replaced_by t.
Proof.
  destruct (earliest_least_trial_is_kept
              [(0, (3 # 10)%Q, "a"%string); (1, (2 # 10)%Q, "b"%string);
               (2, (2 # 10)%Q, "c"%string)]
              (replaced_by (1, (2 # 10)%Q, "b"%string)) eq_refl
              ltac:(discriminate)) as (l1 & t & l2 & H1 & H2 & _).
  exists l1, t, l2. split; assumption.
Defined.

(** X9. After the search [__main__] reads the best model's path from the
    study.  When some finished trial had a loss below 1000000 the lookup
    returns the checkpoint path of the recorded trial, which is also the
    global [best_model_path]; when none had, nothing was recorded and the
    lookup raises [KeyError]. *)
Theorem main_lookup_after_search (ts : list (Z * Q * string)) :
  exists g,
    optimize_callbacks main_globals (map trial_of ts) = Return g /\
    best_model_path g = study_best_model_path g /\
    ((exists t, In t ts /\ (loss_of t < 1000000)%Q) ->
     exists p, main_best_model_path g = Return p /\ best_model_path g = Some p /\
               exists t, In t ts /\ path_of t = p) /\
    ((forall t, In t ts -> (1000000 <= loss_of t)%Q) ->
     main_best_model_path g = Raise KeyError).
Proof.
  destruct (optimize_first_least ts main_globals) as (g & Hrun & Hcase).
  exists g. split; [exact Hrun |].
  destruct Hcase as [[-> Hall] | (l1 & t & l2 & -> & -> & Hlt & _ & _)].
  - split; [reflexivity | split; [| reflexivity]].
    intros (t & Hin & Hlt). exfalso. specialize (Hall t Hin).
    cbn [main_globals best_validation_loss] in Hall. lra.
  - split; [reflexivity | split].
    + intros _. exists (path_of t). repeat split.
      exists t. split; [apply in_or_app; right; left; reflexivity | reflexivity].
    + intros Hall. exfalso.
      assert (Hin : In t (l1 ++ t :: l2)) by (apply in_or_app; right; left; reflexivity).
      specialize (Hall t Hin).
      cbn [main_globals best_validation_loss] in Hlt. lra.
Qed.

Lemma main_lookup_after_search_witness :
  exists g,
    optimize_callbacks main_globals
      (map trial_of [(0, 2000000%Q, "a"%string)]) = Return g /\
    main_best_model_path g = Raise KeyError.
Proof.
  destruct (main_lookup_after_search [(0, 2000000%Q, "a"%string)])
    as (g & Hrun & _ & _ & Hnone).
  exists g. split; [exact Hrun |]. apply Hnone.
  intros t [<- | []]. unfold loss_of. simpl. discriminate.
Defined.

Lemma callback_incomplete (g : Selection) (t : Trial) :
  incomplete_trial t -> save_best_model_callback g t = Raise KeyError.
Proof.
  unfold incomplete_trial, save_best_model_callback. intros [H | H]; rewrite H.
  - reflexivity.
  - destruct (attr_best_val_loss t); reflexivity.
Qed.

Lemma optimize_app (ts1 : list Trial) :
  forall g ts2,
    optimize_callbacks g (ts1 ++ ts2)
    = (g1 <- optimize_callbacks g ts1 ;; optimize_callbacks g1 ts2).
Proof.
  induction ts1 as [|t ts1 IH]; intros g ts2; [reflexivity |].
  cbn [app optimize_callbacks].
  destruct (save_best_model_callback g t) as [g1|e]; cbn [bind]; [apply IH | reflexivity].
Qed.

(** X10. A trial that lacks "best_val_loss" or "best_model_path" makes the
    callback raise [KeyError]; the search then ends there: whatever finished
    trials came before it and whatever trials would follow, the run raises
    [KeyError]. *)
Theorem incomplete_trial_aborts_search (g : Selection)
  (before : list (Z * Q * string)) (t : Trial) (after : list Trial) :
  incomplete_trial t ->
  save_best_model_callback g t = Raise KeyError /\
  optimize_callbacks g (map trial_of before ++ t :: after) = Raise KeyError.
Proof.
  intro Hinc. split; [apply callback_incomplete; exact Hinc |].
  rewrite optimize_app.
  destruct (optimize_finished before g) as (g1 & Hrun & _). rewrite Hrun.
  cbn [bind optimize_callbacks]. rewrite (callback_incomplete g1 t Hinc). reflexivity.
Qed.

Lemma incomplete_trial_aborts_search_witness :
  optimize_callbacks main_globals
    (map trial_of [(0, (1 # 2)%Q, "a"%string)]
     ++ mkTrial 1 (Some (1 # 4)%Q) None :: [finished_trial 2 (1 # 8)%Q "c"])
  = Raise KeyError.
Proof.
  apply (incomplete_trial_aborts_search main_globals [(0, (1 # 2)%Q, "a"%string)]
           (mkTrial 1 (Some (1 # 4)%Q) None) [finished_trial 2 (1 # 8)%Q "c"]).
  right. reflexivity.
Defined.

Lemma final_loss_least (ts : list (Z * Q * string)) (g : Selection) :
  optimize_callbacks main_globals (map trial_of ts) = Return g ->
  (best_validation_loss g <= 1000000)%Q /\
  (forall t, In t ts -> (best_validation_loss g <= loss_of t)%Q) /\
  ((best_validation_loss g == 1000000)%Q \/
   exists t, In t ts /\ (best_validation_loss g == loss_of t)%Q).
Proof.
  intro Hrun.
  destruct (optimize_finished ts main_globals) as (g1 & Hrun1 & Hle & Hall & Hcase).
  rewrite Hrun in Hrun1. injection Hrun1 as <-.
  split; [exact Hle | split; [exact Hall |]].
  destruct Hcase as [[-> _] | (t & Hin & _ & ->)].
  - left. reflexivity.
  - right. exists t. split; [exact Hin | reflexivity].
Qed.

(** X11. The best loss a search ends with does not depend on the order in
    which the finished trials are considered. *)
Theorem best_loss_order_independent (ts ts' : list (Z * Q * string))
  (g g' : Selection) :
  Permutation ts ts' ->
  optimize_callbacks main_globals (map trial_of ts) = Return g ->
  optimize_callbacks main_globals (map trial_of ts') = Return g' ->
  (best_validation_loss g == best_validation_loss g')%Q.
Proof.
  intros Hperm Hrun Hrun'.
  destruct (final_loss_least ts g Hrun) as (H1 & Hall & Hin).
  destruct (final_loss_least ts' g' Hrun') as (H1' & Hall' & Hin').
  apply Qle_antisym.
  - destruct Hin' as [-> | (t & Ht & ->)]; [exact H1 |].
    apply Hall. apply (Permutation_in t (Permutation_sym Hperm) Ht).
  - destruct Hin as [-> | (t & Ht & ->)]; [exact H1' |].
    apply Hall'. apply (Permutation_in t Hperm Ht).
Qed.

Lemma best_loss_order_independent_witness :
  (best_validation_loss (replaced_by (1%Z, (2 # 10)%Q, "b"%string))
   == best_validation_loss (replaced_by (1%Z, (2 # 10)%Q, "b"%string)))%Q.
Proof.
  apply (best_loss_order_independent
           [(0, (3 # 10)%Q, "a"%string); (1, (2 # 10)%Q, "b"%string)]
           [(1, (2 # 10)%Q, "b"%string); (0, (3 # 10)%Q, "a"%string)]).
  - apply perm_swap.
  - reflexivity.
  - reflexivity.
Defined.

(** ** Metrics: binarization, formulas, bounds *)

Lemma rebinarize (scores : list Q) :
  np_greater_int (map inject_Z (np_greater_int scores (1 # 2))) (1 # 2)
  = np_greater_int scores (1 # 2).
Proof.
  unfold np_greater_int. rewrite !map_map. apply map_ext.
  intro s. destruct (Qgt_bool s (1 # 2)); reflexivity.
Qed.

(** X12. [evaluate_on_test] binarizes the predictions before it hands them
    to [calculate_metrics], which binarizes again; the second binarization
    changes nothing, so the metrics are those of the raw predictions. *)
Theorem evaluate_on_test_same_metrics (all_y_true : list Z) (all_y_pred : list Q) :
  evaluate_on_test_metrics all_y_true all_y_pred
  = calculate_metrics all_y_true all_y_pred.
Proof.
  unfold evaluate_on_test_metrics, calculate_metrics. cbv zeta.
  rewrite rebinarize. reflexivity.
Qed.

Lemma confusion_sums (labels : list Z) :
  binary_labels labels ->
  forall scores, length labels = length scores ->
    tp_sum labels (np_greater_int scores (1 # 2)) = TP labels scores /\
    pred_sum (np_greater_int scores (1 # 2)) = TP labels scores + FP labels scores /\
    true_sum labels = TP labels scores + FN labels scores.
Proof.
  unfold tp_sum, pred_sum, true_sum, TP, FP, FN, confusion_count, map2, np_greater_int.
  induction 1 as [|y labels Hy _ IH]; intros [|s scores] Hlen; try discriminate.
  - repeat split.
  - injection Hlen as Hlen. destruct (IH scores Hlen) as (IH1 & IH2 & IH3).
    cbn [map combine fst snd]. rewrite !count_true_cons, IH1, IH2, IH3.
    rewrite code_positive_iff.
    destruct Hy as [-> | ->]; destruct (classified_positive s);
      cbn [Z.eqb Pos.eqb andb Bool.eqb]; lia.
Qed.

Lemma confusion_nonneg (label : Z) (positive : bool) (labels : list Z) (scores : list Q) :
  0 <= confusion_count label positive labels scores.
Proof. unfold confusion_count. apply count_true_bounds. Qed.

Lemma metrics_4_binary (labels : list Z) (scores : list Q) :
  length labels = length scores -> binary_labels labels ->
  calculate_metrics_4 labels scores
  = Return {| m_accuracy := np_average (map2 Z.eqb labels (np_greater_int scores (1 # 2)));
              m_recall := prf_divide (TP labels scores)
                                     (TP labels scores + FN labels scores);
              m_f1_score := prf_divide (2 * TP labels scores)
                              (2 * TP labels scores + FP labels scores + FN labels scores);
              m_precision := prf_divide (TP labels scores)
                                        (TP labels scores + FP labels scores) |}.
Proof.
  intros Hlen Hbin.
  assert (Hlen' : length labels = length (np_greater_int scores (1 # 2)))
    by (rewrite length_np_greater_int; exact Hlen).
  destruct (confusion_sums labels Hbin scores Hlen) as (Htp & Hpred & Htrue).
  unfold calculate_metrics_4, accuracy_score, recall_score, f1_score, precision_score.
  rewrite (check_consistent_length_same _ _ Hlen').
  rewrite (check_binary_average_binary _ _ Hlen' Hbin (binary_np_greater_int _ _)).
  cbn [bind]. rewrite Htp, Hpred, Htrue.
  replace (TP labels scores + FP labels scores + (TP labels scores + FN labels scores))
    with (2 * TP labels scores + FP labels scores + FN labels scores) by lia.
  reflexivity.
Qed.



Lemma prf_divide_bounds (num den : Z) :
  0 <= num <= den ->
  exists q, prf_divide num den = Fin q /\ (0 <= q <= 1)%Q.
Proof.
  intro H. unfold prf_divide. destruct (den =? 0) eqn:Hd.
  - exists 0%Q. split; [reflexivity | lra].
  - apply Z.eqb_neq in Hd. eexists. split; [reflexivity |].
    apply rate_bounds; lia.
Qed.

(** X14. For non-empty labels in {0,1} and scores of the same length, every
    metric [calculate_metrics_4] returns is a number in [0,1]. *)
Theorem metrics_in_unit_interval (labels : list Z) (scores : list Q) :
  labels <> [] -> length labels = length scores -> binary_labels labels ->
  exists acc recall f1 precision,
    calculate_metrics_4 labels scores
    = Return (mkMetrics4 (Fin acc) (Fin recall) (Fin f1) (Fin precision)) /\
    (0 <= acc <= 1)%Q /\ (0 <= recall <= 1)%Q /\
    (0 <= f1 <= 1)%Q /\ (0 <= precision <= 1)%Q.
Proof.
  intros Hne Hlen Hbin. rewrite (metrics_4_binary _ _ Hlen Hbin).
  pose proof (confusion_nonneg 1 true labels scores) as Htp. fold (TP labels scores) in Htp.
  pose proof (confusion_nonneg 0 true labels scores) as Hfp. fold (FP labels scores) in Hfp.
  pose proof (confusion_nonneg 1 false labels scores) as Hfn. fold (FN labels scores) in Hfn.
  destruct (prf_divide_bounds (TP labels scores) (TP labels scores + FN labels scores)
              ltac:(lia)) as (r & -> & Hr).
  destruct (prf_divide_bounds (TP labels scores) (TP labels scores + FP labels scores)
              ltac:(lia)) as (p & -> & Hp).
  destruct (prf_divide_bounds (2 * TP labels scores)
              (2 * TP labels scores + FP labels scores + FN labels scores)
              ltac:(lia)) as (f & -> & Hf).
  set (mask := map2 Z.eqb labels (np_greater_int scores (1 # 2))).
  assert (Hmask : mask <> []).
  { unfold mask. destruct labels as [|y labels]; [contradiction |].
    destruct scores as [|s scores]; discriminate. }
  unfold np_average. destruct mask as [|b mask'] eqn:Hm; [contradiction |].
  eexists. exists r, f, p. split; [reflexivity |].
  split; [| split; [exact Hr | split; [exact Hf | exact Hp]]].
  apply rate_bounds.
  - apply count_true_bounds.
  - simpl length. lia.
Qed.

Lemma metrics_in_unit_interval_witness :
  exists acc recall f1 precision,
    calculate_metrics_4 [0; 1; 1] [(9 # 10)%Q; (1 # 10)%Q; (7 # 10)%Q]
    = Return (mkMetrics4 (Fin acc) (Fin recall) (Fin f1) (Fin precision)) /\
    (0 <= acc <= 1)%Q.
Proof.
  assert (Hbin : binary_labels [0; 1; 1]).
  { unfold binary_labels. repeat (apply Forall_cons; [lia |]). apply Forall_nil. }
  destruct (metrics_in_unit_interval [0; 1; 1] [(9 # 10)%Q; (1 # 10)%Q; (7 # 10)%Q]
              ltac:(discriminate) eq_refl Hbin)
    as (a & r & f & p & Hrun & Ha & _).
  exists a, r, f, p. split; [exact Hrun | exact Ha].
Defined.

(** X15. [calculate_metrics] and [calculate_metrics_4] agree on every input:
    when one raises so does the other, with the same exception, and when
    they return, accuracy, recall and F1 are the same. *)
Theorem metric_functions_agree (y_true : list Z) (y_pred : list Q) :
  match calculate_metrics y_true y_pred with
  | Return (acc, recall, f1) =>
      exists precision,
        calculate_metrics_4 y_true y_pred
        = Return (mkMetrics4 acc recall f1 precision)
  | Raise e => calculate_metrics_4 y_true y_pred = Raise e
  end.
Proof.
  unfold calculate_metrics, calculate_metrics_4, recall_score, f1_score,
    precision_score. cbv zeta.
  destruct (accuracy_score y_true (np_greater_int y_pred (1 # 2))) as [acc|e];
    cbn [bind]; [| reflexivity].
  destruct (check_binary_average y_true (np_greater_int y_pred (1 # 2))) as [[]|e];
    cbn [bind]; [| reflexivity].
  eexists. reflexivity.
Qed.

(** ** Waveforms: time mask and fixed length *)

Lemma zero_slice_length (row : list Q) (start stop : Z) :
  0 <= start <= stop -> stop <= Z.of_nat (length row) ->
  length (zero_slice row start stop) = length row.
Proof.
  intros Hs Hn. unfold zero_slice, slice_bound.
  destruct (Z.ltb_spec start 0); [lia |]. destruct (Z.ltb_spec stop 0); [lia |].
  rewrite !length_app, length_firstn, repeat_length, length_skipn. lia.
Qed.

Lemma zero_slice_nth (row : list Q) (start stop : Z) (j : nat) :
  0 <= start <= stop -> stop <= Z.of_nat (length row) ->
  nth j (zero_slice row start stop) 0%Q
  = if (start <=? Z.of_nat j) && (Z.of_nat j <? stop) then 0%Q else nth j row 0%Q.
Proof.
  intros Hs Hn. unfold zero_slice, slice_bound.
  destruct (Z.ltb_spec start 0); [lia |]. destruct (Z.ltb_spec stop 0); [lia |].
  rewrite !Z.min_l by lia.
  set (a := Z.to_nat start). set (b := Z.to_nat stop).
  assert (Hab : (a <= b <= length row)%nat) by (unfold a, b; lia).
  rewrite Nat.max_r by lia.
  destruct (Z.leb_spec start (Z.of_nat j)) as [Hlo | Hlo]; cbn [andb].
  - assert (Haj : (a <= j)%nat) by (unfold a; lia).
    rewrite app_nth2 by (rewrite length_firstn; lia).
    rewrite length_firstn, Nat.min_l by lia.
    destruct (Z.ltb_spec (Z.of_nat j) stop) as [Hhi | Hhi].
    + rewrite app_nth1 by (rewrite repeat_length; unfold b; lia).
      apply nth_repeat.
    + assert (Hbj : (b <= j)%nat) by (unfold b; lia).
      rewrite app_nth2 by (rewrite repeat_length; lia).
      rewrite repeat_length, nth_skipn. f_equal. lia.
  - assert (Haj : (j < a)%nat) by (unfold a; lia).
    rewrite app_nth1 by (rewrite length_firstn; lia).
    rewrite nth_firstn. destruct (Nat.ltb_spec j a); [reflexivity | lia].
Qed.

Lemma nth_map_row (f : list Q -> list Q) (rs : list (list Q)) (c : nat) :
  (c < length rs)%nat -> nth c (map f rs) [] = f (nth c rs []).
Proof.
  intro Hc. rewrite (nth_indep _ [] (f [])) by (rewrite length_map; exact Hc).
  apply map_nth.
Qed.

(** X16. [time_mask_waveform] on a well-shaped waveform with a mask shorter
    than the signal keeps the shape and zeroes, in every channel, exactly
    the samples from [start_idx] up to [start_idx + mask_duration]
    (exclusive); every other sample is unchanged, and since the start is
    drawn below [num_samples - mask_duration] the last sample is never
    zeroed.  A mask at least as long as the signal leaves it unchanged. *)
Theorem time_mask_zeroes_one_segment (w : Waveform) (mask_duration start_idx : Z) :
  well_shaped w ->
  0 <= mask_duration ->
  (Z.of_nat (shape1 w) <= mask_duration -> time_mask_waveform w mask_duration start_idx = w) /\
  (mask_duration < Z.of_nat (shape1 w) ->
   0 <= start_idx < Z.of_nat (shape1 w) - mask_duration ->
   let w' := time_mask_waveform w mask_duration start_idx in
   well_shaped w' /\ shape1 w' = shape1 w /\ length (rows w') = length (rows w) /\
   (forall c j, (c < length (rows w))%nat ->
      nth j (nth c (rows w') []) 0%Q
      = if (start_idx <=? Z.of_nat j) && (Z.of_nat j <? start_idx + mask_duration)
        then 0%Q else nth j (nth c (rows w) []) 0%Q) /\
   (forall c, (c < length (rows w))%nat ->
      nth (shape1 w - 1) (nth c (rows w') []) 0%Q
      = nth (shape1 w - 1) (nth c (rows w) []) 0%Q)).
Proof.
  intros Hw Hdur. unfold time_mask_waveform. cbv zeta. split.
  - intro Hge. rewrite Z.geb_leb.
    destruct (Z.leb_spec (Z.of_nat (shape1 w)) mask_duration); [reflexivity | lia].
  - intros Hlt Hstart. rewrite Z.geb_leb.
    destruct (Z.leb_spec (Z.of_nat (shape1 w)) mask_duration); [lia |].
    cbn [rows shape1]. unfold well_shaped in *. cbn [rows shape1].
    rewrite Forall_forall in Hw.
    assert (Hnth : forall c j, (c < length (rows w))%nat ->
      nth j (nth c (map (fun row => zero_slice row start_idx (start_idx + mask_duration))
                        (rows w)) []) 0%Q
      = if (start_idx <=? Z.of_nat j) && (Z.of_nat j <? start_idx + mask_duration)
        then 0%Q else nth j (nth c (rows w) []) 0%Q).
    { intros c j Hc. rewrite nth_map_row by exact Hc.
      apply zero_slice_nth; [lia |].
      rewrite (Hw (nth c (rows w) [])) by (apply nth_In; exact Hc). lia. }
    split; [| split; [reflexivity | split; [apply length_map | split; [exact Hnth |]]]].
    + apply Forall_forall. intros r Hr. apply in_map_iff in Hr.
      destruct Hr as (row & <- & Hrow).
      rewrite zero_slice_length; [apply Hw; exact Hrow | lia |].
      rewrite (Hw row Hrow). lia.
    + intros c Hc. rewrite (Hnth c _ Hc).
      destruct (Z.leb_spec start_idx (Z.of_nat (shape1 w - 1)));
        destruct (Z.ltb_spec (Z.of_nat (shape1 w - 1)) (start_idx + mask_duration));
        cbn [andb]; try reflexivity. lia.
Qed.

Lemma time_mask_zeroes_one_segment_witness :
  time_mask_waveform (mkWaveform [[1; 2; 3; 4; 5]%Q] 5) 2 1
  = mkWaveform [[1; 0; 0; 4; 5]%Q] 5 /\
  nth 4 (nth 0 (rows (time_mask_waveform (mkWaveform [[1; 2; 3; 4; 5]%Q] 5) 2 1)) [])
      0%Q = 5%Q.
Proof.
  split; [reflexivity |].
  assert (Hw : well_shaped (mkWaveform [[1; 2; 3; 4; 5]%Q] 5)).
  { unfold well_shaped. simpl. constructor; [reflexivity | constructor]. }
  destruct (time_mask_zeroes_one_segment (mkWaveform [[1; 2; 3; 4; 5]%Q] 5) 2 1 Hw
              ltac:(lia)) as [_ H].
  destruct (H ltac:(simpl; lia) ltac:(simpl; lia)) as (_ & _ & _ & _ & Hlast).
  exact (Hlast 0%nat ltac:(simpl; lia)).
Defined.

(** X17. The length fix at the end of [__getitem__] returns a well-shaped
    waveform of exactly [expected_length] samples per channel: the first
    samples are those of the input, in order, and the samples beyond the
    input's length are zeros.  Applying it again changes nothing. *)
Theorem fix_length_exact (expected_length : nat) (w : Waveform) :
  well_shaped w ->
  let w' := fix_length expected_length w in
  well_shaped w' /\ shape1 w' = expected_length /\
  length (rows w') = length (rows w) /\
  (forall c j, (c < length (rows w))%nat -> (j < expected_length)%nat ->
     nth j (nth c (rows w') []) 0%Q
     = if (j <? shape1 w)%nat then nth j (nth c (rows w) []) 0%Q else 0%Q) /\
  fix_length expected_length w' = w'.
Proof.
  intros Hw. unfold fix_length. cbv zeta. unfold well_shaped in *.
  rewrite Forall_forall in Hw.
  destruct (Nat.ltb_spec (shape1 w) expected_length) as [Hshort | Hlong].
  - cbn [rows shape1].
    replace (shape1 w + (expected_length - shape1 w))%nat with expected_length by lia.
    rewrite Nat.ltb_irrefl.
    split; [| split; [reflexivity | split; [apply length_map | split; [| reflexivity]]]].
    + apply Forall_forall. intros r Hr. apply in_map_iff in Hr.
      destruct Hr as (row & <- & Hrow).
      rewrite length_app, repeat_length, (Hw row Hrow). lia.
    + intros c j Hc Hj. rewrite nth_map_row by exact Hc.
      pose proof (Hw (nth c (rows w) []) (nth_In _ _ Hc)) as Hlen.
      destruct (Nat.ltb_spec j (shape1 w)).
      * apply app_nth1. lia.
      * rewrite app_nth2 by lia. apply nth_repeat.
  - destruct (Nat.ltb_spec expected_length (shape1 w)) as [Htrunc | Hsame].
    + cbn [rows shape1]. rewrite !Nat.ltb_irrefl.
      split; [| split; [reflexivity | split; [apply length_map | split; [| reflexivity]]]].
      * apply Forall_forall. intros r Hr. apply in_map_iff in Hr.
        destruct Hr as (row & <- & Hrow).
        rewrite length_firstn, (Hw row Hrow). lia.
      * intros c j Hc Hj. rewrite nth_map_row by exact Hc.
        rewrite nth_firstn.
        destruct (Nat.ltb_spec j expected_length); [| lia].
        destruct (Nat.ltb_spec j (shape1 w)); [reflexivity | lia].
    + assert (Heq : shape1 w = expected_length) by lia.
      split; [apply Forall_forall; exact Hw | split; [exact Heq | split; [reflexivity |]]].
      split.
      * intros c j Hc Hj. destruct (Nat.ltb_spec j (shape1 w)); [reflexivity | lia].
      * destruct (Nat.ltb_spec (shape1 w) expected_length); [lia |].
        destruct (Nat.ltb_spec expected_length (shape1 w)); [lia | reflexivity].
Qed.

Lemma fix_length_exact_witness :
  fix_length 4 (mkWaveform [[1; 2]%Q] 2) = mkWaveform [[1; 2; 0; 0]%Q] 4 /\
  fix_length 1 (mkWaveform [[1; 2]%Q] 2) = mkWaveform [[1]%Q] 1 /\
  shape1 (fix_length 4 (mkWaveform [[1; 2]%Q] 2)) = 4%nat.
Proof.
  split; [reflexivity | split; [reflexivity |]].
  assert (Hw : well_shaped (mkWaveform [[1; 2]%Q] 2)).
  { unfold well_shaped. simpl. constructor; [reflexivity | constructor]. }
  exact (proj1 (proj2 (fix_length_exact 4 (mkWaveform [[1; 2]%Q] 2) Hw))).
Defined.

(** X18. The band [frequency_mask_waveform] masks: when the mask is wider
    than half the sample rate the draw of its start raises [ValueError];
    otherwise the band has the width [mask_size] and lies within
    [0, sample_rate // 2].  With the dataset's sample rate 16000 and the mask
    sizes of [augment_audio_fixed] (500 up to 2999) it never raises. *)
Theorem frequency_band_within_half_rate (sample_rate mask_size draw : Z) :
  0 <= mask_size ->
  (sample_rate / 2 < mask_size ->
   frequency_mask_band sample_rate mask_size draw = Raise ValueError) /\
  (mask_size <= sample_rate / 2 ->
   0 <= draw <= sample_rate / 2 - mask_size ->
   exists start_freq end_freq,
     frequency_mask_band sample_rate mask_size draw = Return (start_freq, end_freq) /\
     0 <= start_freq /\ end_freq <= sample_rate / 2 /\
     end_freq - start_freq = mask_size) /\
  (500 <= mask_size < 3000 ->
   exists band, frequency_mask_band dataset_sample_rate mask_size draw = Return band).
Proof.
  intro Hsize. unfold frequency_mask_band. cbv zeta. split; [| split].
  - intro Hwide. destruct (Z.ltb_spec (sample_rate / 2 - mask_size) 0); [reflexivity | lia].
  - intros Hfit Hdraw.
    destruct (Z.ltb_spec (sample_rate / 2 - mask_size) 0); [lia |].
    exists draw, (draw + mask_size). repeat split; lia.
  - intro Hrange. unfold dataset_sample_rate.
    change (16000 / 2) with 8000.
    destruct (Z.ltb_spec (8000 - mask_size) 0); [lia |].
    eexists. reflexivity.
Qed.

Lemma frequency_band_within_half_rate_witness :
  frequency_mask_band 16000 9000 0 = Raise ValueError /\
  exists start_freq end_freq,
    frequency_mask_band 16000 2000 6000 = Return (start_freq, end_freq) /\
    end_freq <= 16000 / 2.
Proof.
  destruct (frequency_band_within_half_rate 16000 9000 0 ltac:(lia)) as (Hraise & _ & _).
  destruct (frequency_band_within_half_rate 16000 2000 6000 ltac:(lia)) as (_ & Hfit & _).
  split; [apply Hraise; reflexivity |].
  destruct (Hfit ltac:(discriminate) ltac:(split; discriminate))
    as (lo & hi & Hrun & _ & Hhi & _).
  exists lo, hi. split; [exact Hrun | exact Hhi].
Defined.

(** ** The loop over saved trials *)

Lemma evaluated_among_seq (exists_at : nat -> bool) (n : nat) :
  forall s i,
    In i (evaluated_among exists_at (seq s n)) <->
    (s <= i < s + n)%nat /\ forall j, (s <= j <= i)%nat -> exists_at j = true.
Proof.
  induction n as [|n IH]; intros s i; cbn [seq evaluated_among].
  - split; [intros [] | intros [H _]; lia].
  - destruct (exists_at s) eqn:Hs.
    + cbn [In]. rewrite IH. split.
      * intros [<- | [Hi Hall]].
        -- split; [lia |]. intros j Hj. replace j with s by lia. exact Hs.
        -- split; [lia |]. intros j Hj.
           destruct (Nat.eq_dec j s) as [-> | Hne]; [exact Hs | apply Hall; lia].
      * intros [Hi Hall]. destruct (Nat.eq_dec s i) as [Heq | Hne]; [left; exact Heq |].
        right. split; [lia |]. intros j Hj. apply Hall. lia.
    + split; [intros [] |]. intros [Hi Hall].
      rewrite (Hall s ltac:(lia)) in Hs. discriminate.
Qed.

(** X19. The evaluation loop of test.py evaluates trial [i] exactly when
    [i < 20] and the checkpoint files of all trials from 0 to [i] exist: it
    stops at the first missing file, whatever files exist beyond it. *)
Theorem evaluated_until_first_gap (exists_at : nat -> bool) (i : nat) :
  In i (evaluated_trials exists_at) <->
  (i < 20)%nat /\ forall j, (j <= i)%nat -> exists_at j = true.
Proof.
  unfold evaluated_trials. rewrite evaluated_among_seq. split.
  - intros [Hi Hall]. split; [lia |]. intros j Hj. apply Hall. lia.
  - intros [Hi Hall]. split; [lia |]. intros j Hj. apply Hall. lia.
Qed.

Lemma evaluated_until_first_gap_witness :
  In 1%nat (evaluated_trials (fun i => (i <? 2)%nat)) /\
  ~ In 3%nat (evaluated_trials (fun i => negb (i =? 2)%nat)).
Proof.
  split.
  - apply (proj2 (evaluated_until_first_gap (fun i => (i <? 2)%nat) 1)).
    split; [lia |]. intros j Hj. apply Nat.ltb_lt. lia.
  - intro H.
    apply (proj1 (evaluated_until_first_gap (fun i => negb (i =? 2)%nat) 3)) in H.
    destruct H as [_ H]. specialize (H 2%nat ltac:(lia)). discriminate H.
Defined.

(** ** From objective to the callback *)


(** ** The ROC curve is a monotone staircase *)

Lemma firstn_split (i : nat) :
  forall (j : nat) (bs : list bool),
    (i <= j)%nat -> firstn j bs = firstn i bs ++ firstn (j - i) (skipn i bs).
Proof.
  induction i as [|i IH]; intros j bs Hij.
  - rewrite Nat.sub_0_r. reflexivity.
  - destruct j as [|j]; [lia |]. destruct bs as [|b bs].
    + simpl. rewrite firstn_nil. reflexivity.
    + cbn [firstn skipn app]. rewrite (IH j bs) by lia. reflexivity.
Qed.

Lemma count_firstn_le (bs : list bool) (i j : nat) :
  (i <= j)%nat ->
  count_true (firstn i bs) <= count_true (firstn j bs) /\
  count_true (firstn j bs) - count_true (firstn i bs) <= Z.of_nat j - Z.of_nat i.
Proof.
  intro Hij. rewrite (firstn_split i j bs Hij), count_true_app.
  pose proof (count_true_bounds (firstn (j - i) (skipn i bs))) as Hb.
  rewrite length_firstn in Hb. lia.
Qed.

Lemma counts_monotone (r : list (Q * bool)) (i j : nat) :
  (i <= j < length r)%nat ->
  tps_at r i <= tps_at r j /\ fps_at r i <= fps_at r j.
Proof.
  intro Hij. unfold fps_at. rewrite !tps_at_prefix by lia. rewrite <- !firstn_map.
  destruct (count_firstn_le (map snd r) (S i) (S j) ltac:(lia)) as [H1 H2]. lia.
Qed.

Lemma rate_le (a b n : Z) :
  a <= b -> 0 < n -> (inject_Z a / inject_Z n <= inject_Z b / inject_Z n)%Q.
Proof.
  intros Hab Hn. unfold Qdiv. apply Qmult_le_compat_r.
  - rewrite <- Zle_Qle. exact Hab.
  - apply Qinv_le_0_compat. change 0%Q with (inject_Z 0). rewrite <- Zle_Qle. lia.
Qed.

Lemma rate_one (n : Z) : 0 < n -> (inject_Z n / inject_Z n == 1)%Q.
Proof.
  intro Hn. apply Qmult_inv_r. intro H.
  assert (Hlt : (0 < inject_Z n)%Q)
    by (change 0%Q with (inject_Z 0); rewrite <- Zlt_Qlt; exact Hn).
  rewrite H in Hlt. exact (Qlt_irrefl _ Hlt).
Qed.

Lemma points_monotone (r : list (Q * bool)) (idxs : list nat) :
  StronglySorted lt idxs -> Forall (fun i => (i < length r)%nat) idxs ->
  0 < n_neg r -> 0 < n_pos r ->
  forall j k, (j <= k < length (points_of r idxs))%nat ->
    (pt_fpr (nth j (points_of r idxs) no_point)
     <= pt_fpr (nth k (points_of r idxs) no_point))%Q /\
    (pt_tpr (nth j (points_of r idxs) no_point)
     <= pt_tpr (nth k (points_of r idxs) no_point))%Q.
Proof.
  intros Hs Hb Hn Hp j k Hjk. unfold points_of in *.
  cbn [length] in Hjk. rewrite length_map in Hjk.
  set (mk := fun i => mkPoint (Some (score_at r i))
                              (inject_Z (fps_at r i) / inject_Z (n_neg r))
                              (inject_Z (tps_at r i) / inject_Z (n_pos r))).
  assert (Hnth : forall m, (m < length idxs)%nat ->
                           nth m (map mk idxs) no_point = mk (nth m idxs 0%nat)).
  { intros m Hm. rewrite (nth_indep _ no_point (mk 0%nat)) by (rewrite length_map; exact Hm).
    apply map_nth. }
  rewrite Forall_forall in Hb.
  destruct k as [|k].
  - replace j with 0%nat by lia. split; apply Qle_refl.
  - cbn [nth]. rewrite (Hnth k) by lia. cbn [mk pt_fpr pt_tpr].
    assert (Hk : (nth k idxs 0 < length r)%nat) by (apply Hb, nth_In; lia).
    destruct j as [|j].
    + cbn [nth pt_fpr pt_tpr]. split; apply rate_le; try assumption.
      * apply fps_at_bounds. exact Hk.
      * apply tps_at_bounds. exact Hk.
    + cbn [nth]. rewrite (Hnth j) by lia. cbn [mk pt_fpr pt_tpr].
      assert (Hjk' : (nth j idxs 0 <= nth k idxs 0)%nat).
      { destruct (Nat.eq_dec j k) as [-> | Hne]; [lia |].
        apply Nat.lt_le_incl. apply sorted_nth_lt; [exact Hs | lia]. }
      destruct (counts_monotone r _ _ (conj Hjk' Hk)) as [HT HF].
      split; apply rate_le; assumption.
Qed.

(** X21. For labels in {0,1} with both classes and scores of the same
    length, the curve [roc_curve] returns starts at (FPR, TPR) = (0, 0), ends
    at (1, 1), and both rates never decrease along it. *)
Theorem roc_curve_is_monotone (labels : list Z) (scores : list Q) :
  length labels = length scores -> binary_labels labels ->
  In 0 labels -> In 1 labels ->
  exists pts,
    roc_curve labels scores = Return (arrays_of pts) /\
    pts <> [] /\
    (pt_fpr (nth 0 pts no_point) == 0)%Q /\ (pt_tpr (nth 0 pts no_point) == 0)%Q /\
    (pt_fpr (last pts no_point) == 1)%Q /\ (pt_tpr (last pts no_point) == 1)%Q /\
    forall j k, (j <= k < length pts)%nat ->
      (pt_fpr (nth j pts no_point) <= pt_fpr (nth k pts no_point))%Q /\
      (pt_tpr (nth j pts no_point) <= pt_tpr (nth k pts no_point))%Q.
Proof.
  intros Hlen Hbin H0 H1.
  assert (Hne : labels <> []) by (destruct labels; [contradiction | discriminate]).
  destruct (roc_curve_eq _ _ Hlen Hbin Hne) as (idxs & Hs & Hincl & Hroc).
  pose proof (ranked_nonempty _ _ Hlen Hne) as Hr.
  destruct (both_classes_counts _ H0 H1) as [Hn Hp].
  rewrite <- (n_neg_class _ _ Hlen) in Hn. rewrite <- (n_pos_class _ _ Hlen) in Hp.
  assert (Hpos : (0 < length (ranked labels scores))%nat)
    by (destruct (ranked labels scores); [contradiction | simpl; lia]).
  pose proof (sampled_bound _ _ Hpos Hs) as Hb.
  destruct Hs as (Hi & Hsorted & Hlast).
  exists (points_of (ranked labels scores) idxs).
  split; [rewrite Hroc; f_equal; apply arrays_of_points; assumption |].
  split; [discriminate |].
  split; [unfold points_of; cbn [nth pt_fpr]; unfold Qdiv; rewrite Qmult_0_l; reflexivity |].
  split; [unfold points_of; cbn [nth pt_tpr]; unfold Qdiv; rewrite Qmult_0_l; reflexivity |].
  assert (Hlastpt : last (points_of (ranked labels scores) idxs) no_point
                    = mkPoint (Some (score_at (ranked labels scores) (last idxs 0%nat)))
                        (inject_Z (fps_at (ranked labels scores) (last idxs 0%nat))
                         / inject_Z (n_neg (ranked labels scores)))
                        (inject_Z (tps_at (ranked labels scores) (last idxs 0%nat))
                         / inject_Z (n_pos (ranked labels scores)))).
  { unfold points_of.
    set (mk := fun i => mkPoint (Some (score_at (ranked labels scores) i))
                 (inject_Z (fps_at (ranked labels scores) i)
                  / inject_Z (n_neg (ranked labels scores)))
                 (inject_Z (tps_at (ranked labels scores) i)
                  / inject_Z (n_pos (ranked labels scores)))).
    destruct idxs as [|i idxs]; [contradiction |].
    exact (last_map_nonempty mk (i :: idxs) 0%nat no_point ltac:(discriminate)). }
  rewrite Hlastpt, Hlast. cbn [pt_fpr pt_tpr].
  rewrite fps_at_last, tps_at_last by exact Hr.
  split; [apply rate_one; exact Hn | split; [apply rate_one; exact Hp |]].
  apply points_monotone; assumption.
Qed.

Lemma roc_curve_is_monotone_witness :
  exists pts,
    roc_curve [0; 1; 1; 0] [(1 # 10)%Q; (4 # 10)%Q; (8 # 10)%Q; (5 # 10)%Q]
    = Return (arrays_of pts) /\
    (pt_fpr (last pts no_point) == 1)%Q.
Proof.
  assert (Hbin : binary_labels [0; 1; 1; 0]).
  { unfold binary_labels. repeat (apply Forall_cons; [lia |]). apply Forall_nil. }
  assert (H0 : In 0 [0; 1; 1; 0]) by (left; reflexivity).
  assert (H1 : In 1 [0; 1; 1; 0]) by (right; left; reflexivity).
  destruct (roc_curve_is_monotone [0; 1; 1; 0]
              [(1 # 10)%Q; (4 # 10)%Q; (8 # 10)%Q; (5 # 10)%Q] eq_refl Hbin H0 H1)
    as (pts & Hroc & _ & _ & _ & Hf & _).
  exists pts. split; [exact Hroc | exact Hf].
Defined.

(** ** Separated scores *)

Lemma stable_sort_In (x : Q * bool) (l : list (Q * bool)) :
  In x (stable_sort_by_score l) -> In x l.
Proof.
  induction l as [|y l IH]; [intros [] |].
  cbn [stable_sort_by_score]. intro H.
  destruct (insert_by_score_In _ _ _ H) as [-> | Hin];
    [left; reflexivity | right; apply IH; exact Hin].
Qed.

Lemma ranked_separated (labels : list Z) (scores : list Q) :
  length labels = length scores -> binary_labels labels ->
  separated labels scores -> separated_pairs (ranked labels scores).
Proof.
  intros Hlen Hbin Hsep x y Hx Hy Hxt Hyf.
  assert (Hsrc : forall z, In z (ranked labels scores) ->
            exists i, (i < length labels)%nat /\
                      fst z = nth i scores 0%Q /\ snd z = (nth i labels 0 =? 1)).
  { intros z Hz. unfold ranked in Hz. apply in_rev in Hz. apply stable_sort_In in Hz.
    destruct (In_nth _ _ (0%Q, false) Hz) as (i & Hi & Hnth).
    rewrite length_combine, length_map in Hi.
    exists i. split; [lia |].
    rewrite (combine_nth scores (map (fun y => y =? 1) labels) i 0%Q false) in Hnth
      by (rewrite length_map; symmetry; exact Hlen).
    rewrite <- Hnth. cbn [fst snd]. split; [reflexivity |].
    rewrite (nth_indep _ false ((fun y => y =? 1) 0)) by (rewrite length_map; lia).
    apply (map_nth (fun y => y =? 1)). }
  destruct (Hsrc x Hx) as (i & Hi & Hfx & Hsx).
  destruct (Hsrc y Hy) as (j & Hj & Hfy & Hsy).
  rewrite Hfx, Hfy. apply Hsep; try assumption.
  - rewrite Hsx in Hxt. apply Z.eqb_eq in Hxt. exact Hxt.
  - rewrite Hsy in Hyf. apply Z.eqb_neq in Hyf.
    unfold binary_labels in Hbin. rewrite Forall_forall in Hbin.
    destruct (Hbin (nth j labels 0) (nth_In _ _ Hj)) as [H | H]; [exact H | contradiction].
Qed.

Lemma count_true_all_true (bs : list bool) :
  (forall b, In b bs -> b = true) -> count_true bs = Z.of_nat (length bs).
Proof.
  induction bs as [|b bs IH]; intro H; [reflexivity |].
  rewrite count_true_cons, (H b (or_introl eq_refl)), IH
    by (intros b' Hb'; apply H; right; exact Hb').
  simpl length. lia.
Qed.

Lemma count_true_all_false (bs : list bool) :
  (forall b, In b bs -> b = false) -> count_true bs = 0.
Proof.
  induction bs as [|b bs IH]; intro H; [reflexivity |].
  rewrite count_true_cons, (H b (or_introl eq_refl)), IH
    by (intros b' Hb'; apply H; right; exact Hb').
  reflexivity.
Qed.

(** With separated scores the ranking lists the positives first. *)
Lemma separated_positives_first (r : list (Q * bool)) (i : nat) :
  descending r -> separated_pairs r -> (i < length r)%nat ->
  snd (nth i r (0%Q, false)) = true <-> Z.of_nat i < n_pos r.
Proof.
  intros Hd Hsep Hi. split.
  - intro Ht.
    assert (Hfirst : forall b, In b (map snd (firstn (S i) r)) -> b = true).
    { intros b Hb. apply in_map_iff in Hb. destruct Hb as (x & <- & Hx).
      destruct (In_firstn_nth _ _ _ (0%Q, false) Hx) as (j & Hj & Hjl & ->).
      destruct (snd (nth j r (0%Q, false))) eqn:Hs; [reflexivity |].
      exfalso.
      pose proof (Hsep _ _ (nth_In r (0%Q, false) Hi) (nth_In r (0%Q, false) Hjl) Ht Hs)
        as Hlt.
      pose proof (Hd j i ltac:(lia)) as Hle. rewrite !score_at_nth in Hle.
      exact (Qlt_not_le _ _ Hlt Hle). }
    rewrite (count_split r (S i)). rewrite (count_true_all_true _ Hfirst).
    rewrite length_map, length_firstn.
    pose proof (count_true_bounds (map snd (skipn (S i) r))). lia.
  - intro Hlt. destruct (snd (nth i r (0%Q, false))) eqn:Hs; [reflexivity |].
    exfalso.
    assert (Hrest : forall b, In b (map snd (skipn i r)) -> b = false).
    { intros b Hb. apply in_map_iff in Hb. destruct Hb as (x & <- & Hx).
      destruct (In_skipn_nth _ _ _ (0%Q, false) Hx) as (j & Hj & Hjl & ->).
      destruct (snd (nth j r (0%Q, false))) eqn:Hs'; [| reflexivity].
      exfalso.
      pose proof (Hsep _ _ (nth_In r (0%Q, false) Hjl) (nth_In r (0%Q, false) Hi) Hs' Hs)
        as Hlt'.
      pose proof (Hd i j ltac:(lia)) as Hle. rewrite !score_at_nth in Hle.
      exact (Qlt_not_le _ _ Hlt' Hle). }
    rewrite (count_split r i) in Hlt. rewrite (count_true_all_false _ Hrest) in Hlt.
    pose proof (count_true_bounds (map snd (firstn i r))) as Hb.
    rewrite length_map, length_firstn in Hb. lia.
Qed.

Lemma separated_counts (r : list (Q * bool)) (i : nat) :
  descending r -> separated_pairs r -> (i < length r)%nat ->
  tps_at r i = Z.min (Z.of_nat i + 1) (n_pos r).
Proof.
  intros Hd Hsep Hi. rewrite tps_at_prefix by exact Hi.
  destruct (Z.le_gt_cases (Z.of_nat i + 1) (n_pos r)) as [Hle | Hgt].
  - rewrite Z.min_l by exact Hle.
    rewrite count_true_all_true; [rewrite length_map, length_firstn; lia |].
    intros b Hb. apply in_map_iff in Hb. destruct Hb as (x & <- & Hx).
    destruct (In_firstn_nth _ _ _ (0%Q, false) Hx) as (j & Hj & Hjl & ->).
    apply (separated_positives_first r j Hd Hsep Hjl). lia.
  - rewrite Z.min_r by lia. rewrite (count_split r (S i)).
    rewrite (count_true_all_false (map snd (skipn (S i) r))); [lia |].
    intros b Hb. apply in_map_iff in Hb. destruct Hb as (x & <- & Hx).
    destruct (In_skipn_nth _ _ _ (0%Q, false) Hx) as (j & Hj & Hjl & ->).
    destruct (snd (nth j r (0%Q, false))) eqn:Hs; [| reflexivity].
    apply (separated_positives_first r j Hd Hsep Hjl) in Hs. lia.
Qed.

Lemma np_where_from_complete (mask : list bool) :
  forall s j, (j < length mask)%nat -> nth j mask false = true ->
              In (s + j)%nat (np_where_from s mask).
Proof.
  induction mask as [|b mask IH]; intros s j Hj Hnth; simpl in Hj; [lia |].
  cbn [np_where_from]. destruct j as [|j].
  - simpl in Hnth. subst b. left. lia.
  - cbn [nth] in Hnth. replace (s + S j)%nat with (S s + j)%nat by lia.
    destruct b; [right |]; apply IH; try assumption; lia.
Qed.

Lemma nth_np_diff_Z (a : list Z) :
  forall q, (S q < length a)%nat ->
    nth q (np_diff_Z a) 0 = nth (S q) a 0 - nth q a 0.
Proof.
  induction a as [|x [|y rest] IH]; intros q Hq; simpl in Hq; try lia.
  change (np_diff_Z (x :: y :: rest)) with ((y - x) :: np_diff_Z (y :: rest)).
  destruct q as [|q]; [reflexivity |].
  change (nth (S q) ((y - x) :: np_diff_Z (y :: rest)) 0)
    with (nth q (np_diff_Z (y :: rest)) 0).
  rewrite IH by (simpl; lia). reflexivity.
Qed.

Lemma nth_nonzero_Z (a : list Z) (q : nat) :
  (q < length a)%nat -> nth q (nonzero_Z a) false = negb (nth q a 0 =? 0).
Proof.
  intro Hq. unfold nonzero_Z.
  rewrite (nth_indep _ false ((fun d => negb (d =? 0)) 0)) by (rewrite length_map; exact Hq).
  apply (map_nth (fun d => negb (d =? 0))).
Qed.

Lemma nth_map2_orb (a b : list bool) (q : nat) :
  length a = length b -> (q < length a)%nat ->
  nth q (map2 orb a b) false = nth q a false || nth q b false.
Proof.
  intros Hab Ha. unfold map2.
  rewrite (nth_indep _ false ((fun p => fst p || snd p) (false, false)))
    by (rewrite length_map, length_combine; lia).
  rewrite (map_nth (fun p : bool * bool => fst p || snd p)).
  rewrite combine_nth by exact Hab. reflexivity.
Qed.

(** A position where the false-positive count leaves 0 is kept by
    [drop_intermediate]. *)
Lemma optimal_idxs_keeps_corner (fps tps : list Z) (j : nat) :
  length fps = length tps -> (j < length fps)%nat ->
  (forall k, (k < j)%nat -> nth k fps 0 = 0) -> nth j fps 0 = 0 ->
  (forall k, (j < k < length fps)%nat -> 0 < nth k fps 0) ->
  In j (optimal_idxs fps tps).
Proof.
  intros Hlen Hj Hbefore Hat Hafter. unfold optimal_idxs, np_where.
  set (m := length fps) in *.
  set (A := nonzero_Z (np_diff_Z (np_diff_Z fps))).
  set (B := nonzero_Z (np_diff_Z (np_diff_Z tps))).
  assert (HA : length A = (m - 2)%nat)
    by (unfold A, nonzero_Z; rewrite length_map, !length_np_diff_Z; fold m; lia).
  assert (HB : length B = (m - 2)%nat)
    by (unfold B, nonzero_Z; rewrite length_map, !length_np_diff_Z, <- Hlen; fold m; lia).
  apply (np_where_from_complete _ 0 j).
  - cbn [length]. rewrite length_app, length_map2, HA, HB. simpl. lia.
  - destruct j as [|q]; [reflexivity |]. cbn [nth].
    destruct (Nat.lt_ge_cases q (m - 2)) as [Hq | Hq].
    + rewrite app_nth1 by (rewrite length_map2, HA, HB; lia).
      rewrite nth_map2_orb by lia. apply orb_true_iff. left.
      unfold A. rewrite nth_nonzero_Z by (rewrite !length_np_diff_Z; fold m; lia).
      rewrite nth_np_diff_Z by (rewrite length_np_diff_Z; fold m; lia).
      rewrite !nth_np_diff_Z by (fold m; lia).
      rewrite Hat, (Hbefore q) by lia.
      pose proof (Hafter (S (S q)) ltac:(lia)) as Hpos.
      apply negb_true_iff. apply Z.eqb_neq. lia.
    + rewrite app_nth2 by (rewrite length_map2, HA, HB; lia).
      rewrite length_map2, HA, HB, Nat.min_id.
      replace (q - (m - 2))%nat with 0%nat by lia. reflexivity.
Qed.

Lemma roc_curve_kept (y_true : list Z) (y_score : list Q) :
  length y_true = length y_score -> binary_labels y_true -> y_true <> [] ->
  let r := ranked y_true y_score in
  sampled (length r) (kept_idxs r) /\
  roc_curve y_true y_score
  = Return (rate_of (0 :: map (fps_at r) (kept_idxs r)),
            rate_of (0 :: map (tps_at r) (kept_idxs r)),
            None :: map Some (map (score_at r) (kept_idxs r))).
Proof.
  intros Hlen Hbin Hne r. unfold roc_curve, kept_idxs.
  rewrite (binary_clf_curve_eq _ _ Hlen Hbin Hne). fold r. cbn [bind].
  pose proof (threshold_idxs_sampled r (ranked_nonempty _ _ Hlen Hne)) as Hs.
  rewrite length_map.
  destruct (2 <? length (threshold_idxs r))%nat eqn:Hm.
  - apply Nat.ltb_lt in Hm.
    pose proof (optimal_idxs_sampled (map (fps_at r) (threshold_idxs r))
                  (map (tps_at r) (threshold_idxs r))
                  ltac:(rewrite !length_map; reflexivity)
                  ltac:(rewrite length_map; exact Hm)) as Hopt.
    rewrite length_map in Hopt at 1.
    destruct (take_sampled _ _ _ Hs Hopt) as [Hts _].
    assert (Hb : Forall (fun j => (j < length (threshold_idxs r))%nat)
                        (optimal_idxs (map (fps_at r) (threshold_idxs r))
                                      (map (tps_at r) (threshold_idxs r))))
      by (apply sampled_bound; [lia | exact Hopt]).
    split; [exact Hts |].
    rewrite !(take_idx_map _ 0%nat) by exact Hb. reflexivity.
  - split; [exact Hs | reflexivity].
Qed.

(** With separated scores the position of the last positive is a threshold
    position that [roc_curve] keeps. *)
Lemma separated_corner_kept (r : list (Q * bool)) :
  descending r -> separated_pairs r ->
  1 <= n_pos r -> 1 <= n_neg r ->
  In (Z.to_nat (n_pos r - 1)) (kept_idxs r).
Proof.
  intros Hd Hsep Hp Hn. unfold n_neg in Hn.
  set (c := Z.to_nat (n_pos r - 1)).
  assert (Hne : r <> []) by (intros ->; simpl in Hn; unfold n_pos in Hn; simpl in Hn; lia).
  assert (Hc : (S c < length r)%nat) by (unfold c; lia).
  assert (Hfps : forall i, (i < length r)%nat ->
            fps_at r i = Z.max 0 (Z.of_nat i + 1 - n_pos r)).
  { intros i Hi. unfold fps_at. rewrite (separated_counts r i Hd Hsep Hi). lia. }
  assert (Hin : In c (threshold_idxs r)).
  { unfold threshold_idxs. apply in_or_app. left.
    apply (np_where_from_complete _ 0 c).
    - unfold nonzero_Q. rewrite length_map, length_np_diff_Q, length_map. lia.
    - rewrite nth_nonzero_diff by (rewrite length_map; lia).
      fold (score_at r (S c)). fold (score_at r c).
      apply negb_true_iff. apply not_true_is_false. intro Heq.
      apply Qeq_bool_iff in Heq.
      assert (Hpos : snd (nth c r (0%Q, false)) = true)
        by (apply (separated_positives_first r c Hd Hsep); unfold c; lia).
      assert (Hneg : snd (nth (S c) r (0%Q, false)) = false).
      { destruct (snd (nth (S c) r (0%Q, false))) eqn:Hs; [| reflexivity].
        apply (separated_positives_first r (S c) Hd Hsep Hc) in Hs. unfold c in Hs. lia. }
      assert (Hc' : (c < length r)%nat) by lia.
      pose proof (Hsep _ _ (nth_In r (0%Q, false) Hc')
                    (nth_In r (0%Q, false) Hc) Hpos Hneg) as Hlt.
      rewrite <- !score_at_nth in Hlt. lra. }
  unfold kept_idxs. cbv zeta.
  destruct (2 <? length (threshold_idxs r))%nat eqn:Hm; [| exact Hin].
  pose proof (threshold_idxs_sampled r Hne) as (_ & Hsorted & _).
  assert (Hbound : forall k, (k < length (threshold_idxs r))%nat ->
                             (nth k (threshold_idxs r) 0 < length r)%nat).
  { intros k Hk. apply (threshold_idxs_bound r _ Hne). apply nth_In. exact Hk. }
  destruct (In_nth _ _ 0%nat Hin) as (j & Hj & Hnth).
  unfold take_idx. apply in_map_iff. exists j. split; [exact Hnth |].
  assert (HF : forall k, (k < length (threshold_idxs r))%nat ->
             nth k (map (fps_at r) (threshold_idxs r)) 0
             = fps_at r (nth k (threshold_idxs r) 0%nat)).
  { intros k Hk.
    rewrite (nth_indep _ 0 (fps_at r 0%nat)) by (rewrite length_map; exact Hk).
    apply map_nth. }
  apply optimal_idxs_keeps_corner.
  - rewrite !length_map. reflexivity.
  - rewrite length_map. exact Hj.
  - intros k Hk. rewrite HF by lia. rewrite Hfps by (apply Hbound; lia).
    pose proof (sorted_nth_lt _ Hsorted k j ltac:(lia)) as Hlt.
    rewrite Hnth in Hlt. unfold c in Hlt. lia.
  - rewrite HF by exact Hj. rewrite Hnth, Hfps by lia. unfold c. lia.
  - intros k Hk. rewrite length_map in Hk. rewrite HF by lia.
    rewrite Hfps by (apply Hbound; lia).
    pose proof (sorted_nth_lt _ Hsorted j k ltac:(lia)) as Hlt.
    rewrite Hnth in Hlt. unfold c in Hlt. lia.
Qed.

(** X22. When every sample of label 1 scores strictly above every sample of
    label 0 (labels in {0,1}, both classes present, same lengths),
    [calculate_eer] returns 0: the point with FPR 0 and TPR 1 is an operating
    point that [roc_curve] keeps. *)
Theorem separated_scores_eer_zero (labels : list Z) (scores : list Q) :
  length labels = length scores -> binary_labels labels ->
  In 0 labels -> In 1 labels ->
  separated labels scores ->
  exists e, calculate_eer labels scores = Return (Fin e) /\ (e == 0)%Q.
Proof.
  intros Hlen Hbin H0 H1 Hsep.
  assert (Hne : labels <> []) by (destruct labels; [contradiction | discriminate]).
  set (r := ranked labels scores).
  pose proof (ranked_nonempty _ _ Hlen Hne) as Hr. fold r in Hr.
  pose proof (ranked_descending labels scores) as Hd. fold r in Hd.
  pose proof (ranked_separated _ _ Hlen Hbin Hsep) as Hsp. fold r in Hsp.
  destruct (both_classes_counts _ H0 H1) as [Hn Hp].
  rewrite <- (n_neg_class _ _ Hlen) in Hn. rewrite <- (n_pos_class _ _ Hlen) in Hp.
  fold r in Hn, Hp.
  destruct (roc_curve_kept _ _ Hlen Hbin Hne) as [Hs Hroc]. fold r in Hs, Hroc.
  assert (Hpos : (0 < length r)%nat) by (destruct r; [contradiction | simpl; lia]).
  pose proof (sampled_bound _ _ Hpos Hs) as Hb.
  destruct Hs as (Hi & Hsorted & Hlast).
  rewrite (arrays_of_points r (kept_idxs r) Hi Hlast Hr Hn Hp) in Hroc.
  set (pts := points_of r (kept_idxs r)) in *.
  assert (Hpts : pts <> []) by discriminate.
  destruct (calculate_eer_points _ _ pts Hpts Hroc) as (i & Hilt & Hall & _ & Heer).
  exists (pt_mean (nth i pts no_point)). split; [exact Heer |].
  (* the corner *)
  set (c := Z.to_nat (n_pos r - 1)).
  pose proof (separated_corner_kept r Hd Hsp ltac:(lia) ltac:(lia)) as Hc. fold c in Hc.
  destruct (In_nth _ _ 0%nat Hc) as (k & Hk & Hnth).
  assert (Hclt : (c < length r)%nat)
    by (rewrite Forall_forall in Hb; apply Hb; exact Hc).
  assert (Hcorner : nth (S k) pts no_point
                    = mkPoint (Some (score_at r c))
                        (inject_Z (fps_at r c) / inject_Z (n_neg r))
                        (inject_Z (tps_at r c) / inject_Z (n_pos r))).
  { unfold pts, points_of. cbn [nth].
    set (mk := fun i => mkPoint (Some (score_at r i))
                 (inject_Z (fps_at r i) / inject_Z (n_neg r))
                 (inject_Z (tps_at r i) / inject_Z (n_pos r))).
    rewrite (nth_indep _ no_point (mk 0%nat)) by (rewrite length_map; exact Hk).
    rewrite (map_nth mk), Hnth. reflexivity. }
  assert (Htc : tps_at r c = n_pos r)
    by (rewrite (separated_counts r c Hd Hsp Hclt); unfold c; lia).
  assert (Hfc : fps_at r c = 0) by (unfold fps_at; rewrite Htc; unfold c; lia).
  assert (Hcf : (pt_fpr (nth (S k) pts no_point) == 0)%Q).
  { rewrite Hcorner. cbn [pt_fpr]. rewrite Hfc. unfold Qdiv. apply Qmult_0_l. }
  assert (Hct : (pt_tpr (nth (S k) pts no_point) == 1)%Q).
  { rewrite Hcorner. cbn [pt_tpr]. rewrite Htc. apply rate_one. exact Hp. }
  assert (Hlen_pts : length pts = S (length (kept_idxs r)))
    by (unfold pts, points_of; cbn [length]; rewrite length_map; reflexivity).
  (* the selected point has gap 0 *)
  assert (Hgap : (pt_gap (nth i pts no_point) <= 0)%Q).
  { apply Qle_trans with (pt_gap (nth (S k) pts no_point));
      [apply Hall; lia |].
    unfold pt_gap. apply Qabs_Qle_condition. split; lra. }
  unfold pt_gap in Hgap. apply Qabs_Qle_condition in Hgap.
  pose proof (points_bounds r (kept_idxs r) Hb Hn Hp) as Hbounds. fold pts in Hbounds.
  rewrite Forall_forall in Hbounds.
  destruct (Hbounds _ (nth_In pts no_point Hilt)) as [Hfb Htb].
  assert (Hzero : (pt_fpr (nth i pts no_point) + (1 - pt_tpr (nth i pts no_point)) == 0)%Q).
  { destruct (Nat.le_ge_cases i (S k)) as [Hle | Hge].
    - destruct (points_monotone r (kept_idxs r) Hsorted Hb Hn Hp i (S k)) as [Hmf _];
        [fold pts; lia |].
      fold pts in Hmf. lra.
    - destruct (points_monotone r (kept_idxs r) Hsorted Hb Hn Hp (S k) i) as [_ Hmt];
        [fold pts; lia |].
      fold pts in Hmt. lra. }
  unfold pt_mean. rewrite Hzero. reflexivity.
Qed.

Lemma separated_scores_eer_zero_witness :
  exists e,
    calculate_eer [0; 1; 0; 1] [(2 # 10)%Q; (7 # 10)%Q; (3 # 10)%Q; (9 # 10)%Q]
    = Return (Fin e) /\ (e == 0)%Q.
Proof.
  assert (Hbin : binary_labels [0; 1; 0; 1]).
  { unfold binary_labels. repeat (apply Forall_cons; [lia |]). apply Forall_nil. }
  assert (H0 : In 0 [0; 1; 0; 1]) by (left; reflexivity).
  assert (H1 : In 1 [0; 1; 0; 1]) by (right; left; reflexivity).
  apply (separated_scores_eer_zero [0; 1; 0; 1]
           [(2 # 10)%Q; (7 # 10)%Q; (3 # 10)%Q; (9 # 10)%Q] eq_refl Hbin H0 H1).
  intros i j Hi Hj Hli Hlj.
  destruct i as [|[|[|[|i]]]]; try (simpl in Hli; discriminate Hli); try (simpl in Hi; lia);
    destruct j as [|[|[|[|j]]]]; try (simpl in Hlj; discriminate Hlj);
    try (simpl in Hj; lia); reflexivity.
Defined.
